(** * MicMonitor: the noise gate of [micmon.py], over the reals

    The gate of [micmon.py] is a class [AudioNoiseGate] with a constructor
    that derives the gate's coefficients and a per-block [audio_callback]
    that measures the block's RMS, picks a target gain, smooths the gain
    with a one-pole filter and scales the block.

    Numbers are modelled as mathematical reals ([R]): a Python float or
    numpy scalar is the real it denotes.  The range of binary64 is
    modelled where the constructor derives a float by a power or an
    exponential: a result above the largest double overflows (Python's
    [**] raises [OverflowError], numpy gives inf) and a positive result
    below half the smallest subnormal is 0.0.  Rounding inside that range
    is outside the model: where a double would round to a neighbour (an
    exponential next to 1 to exactly 1.0, say) the model keeps the real.
    Where a numpy operation leaves the finite reals (division by zero,
    mean of an empty array, a negative base under a fractional exponent,
    overflow) the model answers [None]; where Python raises it answers
    [Raise]. *)

From Stdlib Require Import Reals.Reals Lra Lia List ZArith.
Import ListNotations.
From Stdlib Require Import Bool.
From Stdlib Require String Ascii.
Import String.StringSyntax.
Delimit Scope string_scope with string.

Open Scope R_scope.

(** ** Results of Python code that may raise *)

(** [ZeroDivisionError] and [OverflowError] are the exceptions the
    constructor can raise.  [InvalidConfig] is the error kind the
    specification names; no line of [micmon.py] raises it. *)
Inductive exn : Set :=
  | ZeroDivisionError
  | OverflowError
  | InvalidConfig.

(** [Infinite] stands for an object built with an infinite field (an
    overflow in numpy, which warns and goes on); the model follows such an
    object no further. *)
Inductive result (A : Type) : Type :=
  | Ok (a : A)
  | Raise (e : exn)
  | Infinite.

Arguments Ok {A} a.
Arguments Raise {A} e.
Arguments Infinite {A}.

Definition bind_result {A B : Type} (r : result A) (k : A -> result B) : result B :=
  match r with
  | Ok a => k a
  | Raise e => Raise e
  | Infinite => Infinite
  end.

Definition bind_option {A B : Type} (o : option A) (k : A -> option B) : option B :=
  match o with
  | Some a => k a
  | None => None
  end.

Declare Scope py_scope.
Delimit Scope py_scope with py.
Notation "x <- r ;; k" := (bind_result r (fun x => k))
  (at level 61, r at next level, right associativity) : py_scope.

Declare Scope np_scope.
Delimit Scope np_scope with np.
Notation "x <- o ;; k" := (bind_option o (fun x => k))
  (at level 61, o at next level, right associativity) : np_scope.

(** ** The range of binary64 *)

Module F64.

(** The largest finite double, [(2 - 2^-52) * 2^1023]. *)
Definition max : R := (2 - / 2 ^ 52) * 2 ^ 1023.

(** Half the smallest positive subnormal, [2^-1075]: a positive result
    below it is 0.0. *)
Definition tiny : R := / 2 ^ 1075.

(** A positive result [v] as a double: inf ([None]) above [max], 0.0
    below [tiny], and [v] itself (rounding aside) between. *)
Definition fit (v : R) : option R :=
  if Rlt_dec max v then None
  else if Rlt_dec v tiny then Some 0
  else Some v.

End F64.

(** The real power of ten, [exp (y * ln 10)]. *)
Definition exp10 (y : R) : R := Rpower 10 y.

(** ** Python float arithmetic *)

Module Py.

(** [x / y] on Python floats: raises [ZeroDivisionError] when [y] is zero. *)
Definition truediv (x y : R) : result R :=
  if Req_dec_T y 0 then Raise ZeroDivisionError else Ok (x / y).

(** The conversion of an operand to a float ([int * float],
    [int / float]): a float is itself, and a number beyond the largest
    double, which only an integer can be, raises [OverflowError]. *)
Definition to_float (x : R) : result R :=
  if Rlt_dec F64.max (Rabs x) then Raise OverflowError else Ok x.

Definition float_of_int (z : Z) : result R := to_float (IZR z).

(** [10 ** y] on a Python float: an overflow raises [OverflowError], an
    underflow is 0.0. *)
Definition pow10 (y : R) : result R :=
  match F64.fit (exp10 y) with
  | Some v => Ok v
  | None => Raise OverflowError
  end.

End Py.

(** ** The numpy operations the gate uses *)

Module Np.

(** [np.clip(x, lo, hi)] is [minimum(maximum(x, lo), hi)]. *)
Definition clip (x lo hi : R) : R := Rmin (Rmax x lo) hi.

(** [np.exp(x)]: inf on overflow, 0.0 on underflow. *)
Definition exp (x : R) : option R := F64.fit (Rtrigo_def.exp x).

(** [10 ** y] on a numpy scalar: inf on overflow, 0.0 on underflow. *)
Definition pow10 (y : R) : option R := F64.fit (exp10 y).

(** [np.log10(x)]: finite for positive [x] only. *)
Definition log10 (x : R) : option R :=
  if Rlt_dec 0 x then Some (ln x / ln 10) else None.

Definition square (a : list R) : list R := map (fun x => x * x) a.

Definition sum (a : list R) : R := fold_right Rplus 0 a.

(** [np.mean(a)]: the mean of an empty array is nan. *)
Definition mean (a : list R) : option R :=
  match a with
  | [] => None
  | _ :: _ => Some (sum a / INR (length a))
  end.

(** [np.sqrt(x)]: nan for negative [x]. *)
Definition sqrt (x : R) : option R :=
  if Rlt_dec x 0 then None else Some (R_sqrt.sqrt x).

(** [x / y] on numpy scalars: dividing by zero gives inf or nan. *)
Definition divide (x y : R) : option R :=
  if Req_dec_T y 0 then None else Some (x / y).

(** [x ** y] on numpy scalars.  A zero base gives 0 under a positive
    exponent, 1 under exponent 0 and inf under a negative one; a negative
    base gives nan under the fractional exponents the gate uses. *)
Definition power (x y : R) : option R :=
  if Rlt_dec 0 x then Some (Rpower x y)
  else if Req_dec_T x 0 then
    if Rlt_dec 0 y then Some 0
    else if Req_dec_T y 0 then Some 1
    else None
  else None.

Definition maximum (x y : R) : R := Rmax x y.

End Np.

(** ** The gate *)

Record AudioNoiseGate : Type := mkGate {
  threshold : R;
  block_size : Z;
  sample_rate : Z;
  volume_db : R;
  volume : R;
  attack_coef : R;
  release_coef : R;
  current_gain : R;
  threshold_amplitude : R;
  inv_ratio : R
}.

(** [AudioNoiseGate.__init__].  The block size and the sample rate are
    integers, the two times and the volume floats, the threshold an
    integer or a float.  The lines are taken in the order of the source,
    so the exception raised is the first one the source meets: the two
    coefficient lines convert the integer sample rate and divide Python
    floats, the threshold line converts the threshold and raises on
    overflow.  [self.volume_db] is a numpy scalar, so is [self.volume]; an
    infinite field, which numpy lets pass, shows as [Infinite] once every
    line has run. *)
Definition __init__ (threshold0 : R) (block_size0 sample_rate0 : Z)
    (attack_time release_time volume_db0 : R) : result AudioNoiseGate :=
  (let vdb := Np.clip volume_db0 (-60) 12 in
   let vol := Np.pow10 (vdb / 20) in
   sa <- Py.float_of_int sample_rate0 ;;
   qa <- Py.truediv (-1) (sa * attack_time) ;;
   let ac := Np.exp qa in
   sr <- Py.float_of_int sample_rate0 ;;
   qr <- Py.truediv (-1) (sr * release_time) ;;
   let rc := Np.exp qr in
   tf <- Py.to_float threshold0 ;;
   ta <- Py.pow10 (tf / 20) ;;
   match vol, ac, rc with
   | Some v, Some a, Some r =>
       Ok {| threshold := threshold0;
             block_size := block_size0;
             sample_rate := sample_rate0;
             volume_db := vdb;
             volume := v;
             attack_coef := a;
             release_coef := r;
             current_gain := 1;
             threshold_amplitude := ta;
             inv_ratio := 0.1 |}
   | _, _, _ => Infinite
   end)%py.

(** The constructor's defaults: [threshold=-35], [block_size=64],
    [sample_rate=48000], [attack_time=0.0005], [release_time=0.02],
    [volume_db=0.0]. *)
Definition default_attack_time : R := 0.0005.
Definition default_release_time : R := 0.02.

(** [AudioNoiseGate()]: the gate the constructor builds from its defaults. *)
Definition default_gate : AudioNoiseGate :=
  {| threshold := -35;
     block_size := 64;
     sample_rate := 48000;
     volume_db := Np.clip 0 (-60) 12;
     volume := exp10 (Np.clip 0 (-60) 12 / 20);
     attack_coef := Rtrigo_def.exp (-1 / (IZR 48000 * default_attack_time));
     release_coef := Rtrigo_def.exp (-1 / (IZR 48000 * default_release_time));
     current_gain := 1;
     threshold_amplitude := exp10 (-35 / 20);
     inv_ratio := 0.1 |}.

Definition set_current_gain (g : AudioNoiseGate) (v : R) : AudioNoiseGate :=
  {| threshold := threshold g;
     block_size := block_size g;
     sample_rate := sample_rate g;
     volume_db := volume_db g;
     volume := volume g;
     attack_coef := attack_coef g;
     release_coef := release_coef g;
     current_gain := v;
     threshold_amplitude := threshold_amplitude g;
     inv_ratio := inv_ratio g |}.

(** [rms = np.sqrt(np.mean(np.square(audio)))] *)
Definition rms (audio : list R) : option R :=
  (m <- Np.mean (Np.square audio) ;; Np.sqrt m)%np.

(** The gate logic: fully open above the threshold, a soft knee with a
    floor of 0.01 below it. *)
Definition target_gain (g : AudioNoiseGate) (r : R) : option R :=
  if Rgt_dec r (threshold_amplitude g) then Some 1
  else
    (q <- Np.divide r (threshold_amplitude g) ;;
     p <- Np.power q (inv_ratio g) ;;
     Some (Np.maximum p 0.01))%np.

(** The coefficient of the smoothing step. *)
Definition coef (g : AudioNoiseGate) (target : R) : R :=
  if Rgt_dec target (current_gain g) then attack_coef g else release_coef g.

(** [self.current_gain += (target_gain - self.current_gain) * (1 - coef)] *)
Definition smooth (g : AudioNoiseGate) (target : R) : AudioNoiseGate :=
  set_current_gain g
    (current_gain g + (target - current_gain g) * (1 - coef g target)).

(** [AudioNoiseGate.audio_callback]: the block [indata[:, 0]] comes in, the
    gate with its new gain and the block written to [outdata[:, 0]] come
    out.  [frames], [time_info] and [status] are not read. *)
Definition audio_callback (g : AudioNoiseGate) (indata : list R)
    : option (AudioNoiseGate * list R) :=
  (let audio := indata in
   r <- rms audio ;;
   t <- target_gain g r ;;
   let g' := smooth g t in
   Some (g', map (fun x => x * current_gain g' * volume g') audio))%np.

(** The stream calls the callback once per block, in order, on one gate. *)
Fixpoint stream (g : AudioNoiseGate) (blocks : list (list R))
    : option (AudioNoiseGate * list (list R)) :=
  match blocks with
  | [] => Some (g, [])
  | b :: rest =>
      (s <- audio_callback g b ;;
       t <- stream (fst s) rest ;;
       Some (fst t, snd s :: snd t))%np
  end.

(** The command line's volume: a percentage outside 1..200 is refused,
    otherwise [volume_db = 20 * np.log10(volume_percent / 100.0)]. *)
Definition main_volume_db (volume_percent : R) : option R :=
  if Rlt_dec volume_percent 1 then None
  else if Rgt_dec volume_percent 200 then None
  else (l <- Np.log10 (volume_percent / 100) ;; Some (20 * l))%np.

(** The gates a session can see: the constructed one, and the one each
    completed callback leaves behind. *)
Inductive reachable (g0 : AudioNoiseGate) : AudioNoiseGate -> Prop :=
  | reach_init : reachable g0 g0
  | reach_step (g g' : AudioNoiseGate) (b out : list R) :
      reachable g0 g ->
      audio_callback g b = Some (g', out) ->
      reachable g0 g'.

(** The specification's invariant, which the constructor establishes for a
    threshold of at least -6000 dB and the callback keeps: a positive
    threshold amplitude and the knee exponent 0.1. *)
Definition gate_ok (g : AudioNoiseGate) : Prop :=
  0 < threshold_amplitude g /\ inv_ratio g = 0.1.

(** What every constructed gate has: a threshold amplitude that is not
    negative (0.0 when the power underflows) and the knee exponent 0.1. *)
Definition gate_built (g : AudioNoiseGate) : Prop :=
  0 <= threshold_amplitude g /\ inv_ratio g = 0.1.

(** ** The specification's formulas

    These follow the words of the specification, to be compared with the
    definitions above. *)

Module Spec.

Definition mean (block : list R) : R :=
  fold_right Rplus 0 block / INR (length block).

(** RMS = sqrt(mean(sample^2)) *)
Definition RMS (block : list R) : R :=
  R_sqrt.sqrt (mean (map (fun s => s ^ 2) block)).

(** The real power [x ^ e] of a non-negative base: 0 at base 0 (for a
    positive exponent), [exp (e * ln x)] above. *)
Definition rpow (x e : R) : R :=
  if Req_dec_T x 0 then 0 else Rpower x e.

Definition kneeExponent : R := 0.1.
Definition minGateFloor : R := 0.01.

(** targetGain = 1.0 if RMS > thresholdAmplitude, else
    max((RMS / thresholdAmplitude) ^ kneeExponent, minGateFloor). *)
Definition targetGain (thresholdAmplitude rms0 : R) : R :=
  if Rgt_dec rms0 thresholdAmplitude then 1
  else Rmax (rpow (rms0 / thresholdAmplitude) kneeExponent) minGateFloor.

End Spec.

(** ** Starting the gate *)

(** [AudioNoiseGate.start] first computes
    [latency_ms = self.block_size / self.sample_rate * 1000], a division of
    Python integers, outside its [try]; the lines it prints are not
    modelled. *)
Definition latency_ms (g : AudioNoiseGate) : result R :=
  (q <- Py.truediv (IZR (block_size g)) (IZR (sample_rate g)) ;;
   Ok (q * 1000))%py.


(** ** The command line *)

(** A value of Python's [float]: a real, an infinity or nan. *)
Inductive pyfloat : Type :=
  | Finite (x : R)
  | PosInf
  | NegInf
  | NaN.

(** [v < x] and [v > x] against a finite [x]; every comparison with nan is
    false. *)
Definition float_lt (v : pyfloat) (x : R) : bool :=
  match v with
  | Finite a => if Rlt_dec a x then true else false
  | NegInf => true
  | PosInf => false
  | NaN => false
  end.

Definition float_gt (v : pyfloat) (x : R) : bool :=
  match v with
  | Finite a => if Rgt_dec a x then true else false
  | PosInf => true
  | NegInf => false
  | NaN => false
  end.

(** [str.lower] on the characters of ASCII; other characters are kept (no
    character outside ASCII lower-cases to a letter of a preset's name). *)
Definition lower_ascii (c : Ascii.ascii) : Ascii.ascii :=
  let n := Ascii.nat_of_ascii c in
  if ((65 <=? n) && (n <=? 90))%nat then Ascii.ascii_of_nat (n + 32) else c.

Fixpoint lower (s : String.string) : String.string :=
  match s with
  | String.EmptyString => String.EmptyString
  | String.String c rest => String.String (lower_ascii c) (lower rest)
  end.

Record preset : Type := mkPreset {
  preset_block_size : Z;
  preset_threshold : R;
  preset_desc : String.string
}.

(** The [PRESETS] table, in the order of the source. *)
Definition PRESETS : list (String.string * preset) :=
  [ ("ultra"%string,
     mkPreset 32 (-25) "Ultra-low (~0.67ms) - May be unstable"%string);
    ("minimum"%string,
     mkPreset 64 (-25) "Minimum latency (~1.3ms)"%string);
    ("balanced"%string,
     mkPreset 128 (-25) "Balanced (~2.7ms) - Recommended"%string);
    ("stable"%string,
     mkPreset 256 (-25) "Stable (~5.3ms)"%string) ].

(** [PRESETS[key]]; [None] is Python's [KeyError]. *)
Fixpoint getitem (d : list (String.string * preset)) (key : String.string)
    : option preset :=
  match d with
  | [] => None
  | (k, v) :: rest => if String.eqb key k then Some v else getitem rest key
  end.

(** [key in PRESETS] *)
Definition contains (d : list (String.string * preset)) (key : String.string)
    : bool :=
  existsb (fun kv => String.eqb key (fst kv)) d.

(** How the script ends.  [NonFinite] stands for a run in which the volume
    left the finite reals before the gate was built (a nan percentage), or
    a field of the gate did; the model follows such a run no further. *)
Inductive outcome : Type :=
  | SysExit (code : Z)
  | KeyError
  | Uncaught (e : exn)
  | NonFinite
  | Started (g : AudioNoiseGate).

Section Main.

(** Python's [float(s)] on a command-line word: [None] is [ValueError]. *)
Variable float : String.string -> option pyfloat.

(** The first argument: the profile, lower-cased, or exit 1 when it is not
    a key of [PRESETS]. *)
Definition parse_profile (argv : list String.string)
    : String.string + outcome :=
  if (1 <? length argv)%nat then
    let profile_arg := lower (nth 1 argv String.EmptyString) in
    if contains PRESETS profile_arg then inl profile_arg
    else inr (SysExit 1)
  else inl "balanced"%string.

(** The second argument: the volume percentage, or exit 1 when it is not a
    number or is below 1 or above 200. *)
Definition parse_volume (argv : list String.string) : pyfloat + outcome :=
  if (2 <? length argv)%nat then
    match float (nth 2 argv String.EmptyString) with
    | Some volume_percent =>
        if float_lt volume_percent 1 || float_gt volume_percent 200
        then inr (SysExit 1)
        else inl volume_percent
    | None => inr (SysExit 1)
    end
  else inl (Finite 100).

(** [volume_db = 20 * np.log10(volume_percent / 100.0)], when finite. *)
Definition percent_to_db (volume_percent : pyfloat) : option R :=
  match volume_percent with
  | Finite p => (l <- Np.log10 (p / 100) ;; Some (20 * l))%np
  | _ => None
  end.

(** The [__main__] block on [sys.argv], up to the call of [gate.start()]. *)
Definition main (argv : list String.string) : outcome :=
  match parse_profile argv with
  | inr o => o
  | inl profile =>
      match parse_volume argv with
      | inr o => o
      | inl volume_percent =>
          match getitem PRESETS profile with
          | None => KeyError
          | Some p =>
              match percent_to_db volume_percent with
              | None => NonFinite
              | Some volume_db0 =>
                  match __init__ (preset_threshold p) (preset_block_size p)
                          48000 default_attack_time default_release_time
                          volume_db0 with
                  | Ok gate => Started gate
                  | Raise e => Uncaught e
                  | Infinite => NonFinite
                  end
              end
          end
      end
  end.

(** The arguments under which the first argument lets the script go on:
    none given, or a preset's name in any case. *)
Definition profile_accepted (argv : list String.string) : Prop :=
  (length argv <= 1)%nat \/
  contains PRESETS (lower (nth 1 argv String.EmptyString)) = true.

(** The arguments under which the percentage is [p]: none given and the
    default 100, or a finite number between 1 and 200. *)
Definition volume_accepted (argv : list String.string) (p : R) : Prop :=
  ((length argv <= 2)%nat /\ p = 100) \/
  ((2 < length argv)%nat /\
   float (nth 2 argv String.EmptyString) = Some (Finite p) /\
   1 <= p <= 200).

(** The percentage given parses to nan. *)
Definition volume_is_nan (argv : list String.string) : Prop :=
  (2 < length argv)%nat /\ float (nth 2 argv String.EmptyString) = Some NaN.

End Main.

(** ** Basic facts about the arithmetic *)

Lemma exp10_pos (y : R) : 0 < exp10 y.
Proof. unfold exp10, Rpower. apply exp_pos. Qed.

Lemma exp10_le (x y : R) : x <= y -> exp10 x <= exp10 y.
Proof. intros H. unfold exp10. apply Rle_Rpower; lra. Qed.

Lemma exp10_nat (n : nat) : exp10 (INR n) = 10 ^ n.
Proof. unfold exp10. apply Rpower_pow. lra. Qed.

Lemma exp10_opp_nat (n : nat) : exp10 (- INR n) = / 10 ^ n.
Proof. unfold exp10. rewrite Rpower_Ropp, Rpower_pow by lra. reflexivity. Qed.


Lemma ln10_pos : 0 < ln 10.
Proof. rewrite <- ln_1. apply ln_increasing; lra. Qed.

Lemma ln_le (x y : R) : 0 < x -> x <= y -> ln x <= ln y.
Proof.
  intros Hx [Hlt|E]; [left; apply ln_increasing; assumption | right; rewrite E; reflexivity].
Qed.

Lemma sum_square_nonneg (a : list R) : 0 <= Np.sum (Np.square a).
Proof.
  induction a as [|x a IH]; simpl.
  - lra.
  - pose proof (Rle_0_sqr x) as Hx. unfold Rsqr in Hx. lra.
Qed.

Lemma length_square (a : list R) : length (Np.square a) = length a.
Proof. unfold Np.square. apply length_map. Qed.

Lemma mean_square_nonneg (a : list R) (m : R) :
  Np.mean (Np.square a) = Some m -> 0 <= m.
Proof.
  destruct a as [|x a]; simpl; [discriminate|].
  intros [= <-].
  apply Rmult_le_pos.
  - exact (sum_square_nonneg (x :: a)).
  - left. apply Rinv_0_lt_compat.
    destruct (length (Np.square a)); [simpl; lra|].
    pose proof (pos_INR (S n)). lra.
Qed.

Lemma square_as_pow (a : list R) :
  Np.square a = map (fun s => s ^ 2) a.
Proof. unfold Np.square. apply map_ext. intros x. simpl. ring. Qed.

(** On a non-empty block the RMS is defined and is the specification's. *)
Lemma rms_nonempty (a : list R) :
  a <> [] -> rms a = Some (Spec.RMS a).
Proof.
  intros Ha. unfold rms, Spec.RMS, Spec.mean.
  destruct a as [|x a]; [congruence|].
  remember (x :: a) as b eqn:Hb.
  assert (Hm : Np.mean (Np.square b) =
               Some (Np.sum (Np.square b) / INR (length (Np.square b)))).
  { subst b. reflexivity. }
  rewrite Hm. simpl bind_option.
  pose proof (mean_square_nonneg b _ Hm) as Hpos.
  unfold Np.sqrt.
  destruct (Rlt_dec _ 0) as [Hneg|_]; [lra|].
  rewrite <- square_as_pow. reflexivity.
Qed.

Lemma rms_empty : rms [] = None.
Proof. reflexivity. Qed.

Lemma rms_defined_iff (a : list R) :
  (exists r, rms a = Some r) <-> a <> [].
Proof.
  split.
  - intros [r Hr] ->. discriminate.
  - intros Ha. eexists. apply rms_nonempty, Ha.
Qed.

Lemma rms_nonneg (a : list R) (r : R) : rms a = Some r -> 0 <= r.
Proof.
  destruct a as [|x a]; [discriminate|].
  rewrite rms_nonempty by discriminate.
  intros [= <-]. apply sqrt_pos.
Qed.

(** ** The range of binary64 *)

Lemma max_bounds : 3 ^ 600 <= F64.max /\ 10 ^ 300 <= F64.max /\ F64.max < 10 ^ 350.
Proof. unfold F64.max. repeat split; lra. Qed.

Lemma tiny_bounds :
  0 < F64.tiny /\ F64.tiny <= / 3 ^ 600 /\ F64.tiny <= / 10 ^ 300 /\
  / 10 ^ 350 < F64.tiny.
Proof. unfold F64.tiny. repeat split; lra. Qed.

Lemma max_ge_4 : 4 <= F64.max.
Proof. unfold F64.max. lra. Qed.

Lemma tiny_le_milli : F64.tiny <= 0.001.
Proof. unfold F64.tiny. lra. Qed.

(** The three ways a positive result is stored. *)
Lemma fit_cases (v : R) :
  (F64.max < v /\ F64.fit v = None) \/
  (v < F64.tiny /\ F64.fit v = Some 0) \/
  (F64.tiny <= v <= F64.max /\ F64.fit v = Some v).
Proof.
  unfold F64.fit.
  destruct (Rlt_dec F64.max v) as [Hm|Hm]; [left; auto|].
  destruct (Rlt_dec v F64.tiny) as [Ht|Ht]; [right; left; auto|].
  right; right. split; [lra|reflexivity].
Qed.

Lemma fit_inside (v : R) : F64.tiny <= v <= F64.max -> F64.fit v = Some v.
Proof.
  intros Hv. destruct (fit_cases v) as [[H _]|[[H _]|[_ H]]]; [lra|lra|exact H].
Qed.

Lemma fit_underflow (v : R) : v < F64.tiny -> F64.fit v = Some 0.
Proof.
  intros Hv. pose proof tiny_le_milli as Ht. pose proof max_ge_4 as Hm.
  destruct (fit_cases v) as [[H _]|[[_ H]|[H _]]]; [lra|exact H|lra].
Qed.

Lemma fit_overflow (v : R) : F64.max < v -> F64.fit v = None.
Proof.
  intros Hv. destruct (fit_cases v) as [[_ H]|[[H _]|[H _]]]; [exact H| |lra].
  pose proof tiny_le_milli as Ht. pose proof max_ge_4 as Hm. lra.
Qed.

(** A positive result is stored as itself or as 0.0, never as more. *)
Lemma fit_some (v w : R) :
  0 < v -> F64.fit v = Some w -> 0 <= w <= v /\ (w = v \/ w = 0).
Proof.
  intros Hv H.
  destruct (fit_cases v) as [[_ E]|[[_ E]|[_ E]]]; rewrite E in H;
    [discriminate| |]; injection H as <-; split; auto; lra.
Qed.

(** Powers of ten between [10 ** -300] and [10 ** 300] are stored as they
    are. *)
Lemma exp10_300 : exp10 300 = 10 ^ 300.
Proof.
  rewrite <- exp10_nat. f_equal. rewrite INR_IZR_INZ. reflexivity.
Qed.

Lemma exp10_minus_300 : exp10 (-300) = / 10 ^ 300.
Proof.
  rewrite <- exp10_opp_nat. f_equal. rewrite INR_IZR_INZ. reflexivity.
Qed.

Lemma exp10_350 : exp10 350 = 10 ^ 350.
Proof.
  rewrite <- exp10_nat. f_equal. rewrite INR_IZR_INZ. reflexivity.
Qed.

Lemma exp10_minus_350 : exp10 (-350) = / 10 ^ 350.
Proof.
  rewrite <- exp10_opp_nat. f_equal. rewrite INR_IZR_INZ. reflexivity.
Qed.

Lemma exp10_normal (y : R) :
  -300 <= y <= 300 -> F64.tiny <= exp10 y <= F64.max.
Proof.
  intros [Hlo Hhi].
  pose proof (exp10_le _ _ Hlo) as H1. pose proof (exp10_le _ _ Hhi) as H2.
  rewrite exp10_minus_300 in H1. rewrite exp10_300 in H2.
  pose proof max_bounds. pose proof tiny_bounds. lra.
Qed.

Lemma fit_exp10 (y : R) :
  -300 <= y <= 300 -> F64.fit (exp10 y) = Some (exp10 y).
Proof. intros Hy. apply fit_inside, exp10_normal, Hy. Qed.

(** Below about [10 ** -324] a power of ten is 0.0, above about
    [10 ** 308] it overflows. *)
Lemma fit_exp10_underflow (y : R) : y <= -350 -> F64.fit (exp10 y) = Some 0.
Proof.
  intros Hy. apply fit_underflow.
  pose proof (exp10_le _ _ Hy) as H. rewrite exp10_minus_350 in H.
  pose proof tiny_bounds. lra.
Qed.

Lemma fit_exp10_overflow (y : R) : 350 <= y -> F64.fit (exp10 y) = None.
Proof.
  intros Hy. apply fit_overflow.
  pose proof (exp10_le _ _ Hy) as H. rewrite exp10_350 in H.
  pose proof max_bounds. lra.
Qed.

(** Exponentials of arguments between -600 and 600 are stored as they
    are. *)
Lemma exp_nat (n : nat) : Rtrigo_def.exp (INR n) = Rtrigo_def.exp 1 ^ n.
Proof.
  induction n as [|n IH].
  - simpl. apply exp_0.
  - rewrite S_INR, exp_plus, IH. simpl. ring.
Qed.

Lemma exp_600 : Rtrigo_def.exp 600 <= 3 ^ 600.
Proof.
  replace 600 with (INR 600) by (rewrite INR_IZR_INZ; reflexivity).
  rewrite exp_nat. apply pow_incr. split; [left; apply exp_pos|apply exp_le_3].
Qed.

Lemma exp_le (x y : R) : x <= y -> Rtrigo_def.exp x <= Rtrigo_def.exp y.
Proof.
  intros [H|E]; [left; apply exp_increasing, H | right; rewrite E; reflexivity].
Qed.

Lemma exp_normal (x : R) :
  -600 <= x <= 600 -> F64.tiny <= Rtrigo_def.exp x <= F64.max.
Proof.
  intros [Hlo Hhi].
  pose proof exp_600 as H600.
  pose proof (exp_pos 600) as Hpos.
  pose proof (exp_le _ _ Hhi) as H2.
  pose proof (exp_le _ _ Hlo) as H1.
  assert (E : Rtrigo_def.exp (-600) = / Rtrigo_def.exp 600)
    by (rewrite <- exp_Ropp; f_equal; lra).
  rewrite E in H1.
  assert (H3 : / 3 ^ 600 <= / Rtrigo_def.exp 600).
  { apply Rinv_le_contravar; assumption. }
  pose proof max_bounds. pose proof tiny_bounds. lra.
Qed.

Lemma fit_exp (x : R) :
  -600 <= x <= 600 -> Np.exp x = Some (Rtrigo_def.exp x).
Proof. intros Hx. apply fit_inside, exp_normal, Hx. Qed.

(** ** The clamp *)

Lemma clip_range (x : R) : -60 <= Np.clip x (-60) 12 <= 12.
Proof.
  unfold Np.clip, Rmin, Rmax.
  destruct (Rle_dec x (-60)); destruct (Rle_dec _ 12); lra.
Qed.

Lemma clip_inside (x : R) : -60 <= x <= 12 -> Np.clip x (-60) 12 = x.
Proof.
  intros Hx. unfold Np.clip, Rmin, Rmax.
  destruct (Rle_dec x (-60)); destruct (Rle_dec _ 12); lra.
Qed.

Lemma clip_above (x : R) : 12 <= x -> Np.clip x (-60) 12 = 12.
Proof.
  intros Hx. unfold Np.clip, Rmin, Rmax.
  destruct (Rle_dec x (-60)); destruct (Rle_dec _ 12); lra.
Qed.

Lemma clip_below (x : R) : x <= -60 -> Np.clip x (-60) 12 = -60.
Proof.
  intros Hx. unfold Np.clip, Rmin, Rmax.
  destruct (Rle_dec x (-60)); destruct (Rle_dec _ 12); lra.
Qed.

(** [10 ** -3 = 0.001] and [10 ** 0.6 < 4]. *)
Lemma exp10_minus_3 : exp10 (-60 / 20) = 0.001.
Proof.
  unfold exp10. replace (-60 / 20) with (- INR 3) by (simpl; lra).
  rewrite Rpower_Ropp, Rpower_pow by lra. lra.
Qed.

Lemma exp10_12dB : exp10 (12 / 20) < 4.
Proof.
  unfold exp10, Rpower.
  rewrite <- (exp_ln 4) at 1 by lra.
  apply exp_increasing.
  assert (H : 3 * ln 10 < 5 * ln 4).
  { replace (3 * ln 10) with (ln (10 ^ 3))
      by (rewrite ln_pow by lra; simpl; ring).
    replace (5 * ln 4) with (ln (4 ^ 5))
      by (rewrite ln_pow by lra; simpl; ring).
    apply ln_increasing; lra. }
  lra.
Qed.

(** The volume of a clamped decibel value lies between 0.001 and 4, far
    inside the range of a double. *)
Lemma clip_volume_range (vdb : R) :
  0.001 <= exp10 (Np.clip vdb (-60) 12 / 20) < 4.
Proof.
  pose proof (clip_range vdb) as [Hlo Hhi].
  split.
  - rewrite <- exp10_minus_3. apply exp10_le. lra.
  - apply Rle_lt_trans with (exp10 (12 / 20)); [|exact exp10_12dB].
    apply exp10_le. lra.
Qed.

Lemma clip_volume (vdb : R) :
  Np.pow10 (Np.clip vdb (-60) 12 / 20)
  = Some (exp10 (Np.clip vdb (-60) 12 / 20)).
Proof.
  unfold Np.pow10. apply fit_inside.
  pose proof (clip_volume_range vdb). pose proof tiny_le_milli.
  pose proof max_ge_4. lra.
Qed.

(** ** The smoothing coefficients *)

(** [np.exp(-1.0 / x)] for a product [x] of sample rate and time constant
    whose magnitude is at least 1/600: the exponential itself. *)
Lemma exp_coef_normal (x : R) :
  1 <= 600 * Rabs x ->
  Np.exp (-1 / x) = Some (Rtrigo_def.exp (-1 / x)).
Proof.
  intros Hx. apply fit_exp.
  unfold Rabs in Hx. destruct (Rcase_abs x) as [Hneg|Hpos].
  - assert (Hi : 0 < / - x) by (apply Rinv_0_lt_compat; lra).
    assert (E : -1 / x = / - x) by (field; lra).
    assert (Hle : / - x <= 600).
    { apply Rmult_le_reg_r with (- x); [lra|].
      rewrite Rinv_l by lra. lra. }
    rewrite E. lra.
  - assert (Hx0 : 0 < x) by lra.
    assert (Hi : 0 < / x) by (apply Rinv_0_lt_compat; lra).
    assert (E : -1 / x = - / x) by (field; lra).
    assert (Hle : / x <= 600).
    { apply Rmult_le_reg_r with x; [lra|].
      rewrite Rinv_l by lra. lra. }
    rewrite E. lra.
Qed.

(** A positive product gives a coefficient from 0 (on underflow) to 1. *)
Lemma exp_coef_pos (x : R) :
  0 < x ->
  exists c, Np.exp (-1 / x) = Some c /\ 0 <= c <= 1 /\
            (c = Rtrigo_def.exp (-1 / x) \/ c = 0).
Proof.
  intros Hx.
  assert (Hi : 0 < / x) by (apply Rinv_0_lt_compat, Hx).
  assert (Hlt : Rtrigo_def.exp (-1 / x) < 1).
  { rewrite <- exp_0. apply exp_increasing. unfold Rdiv. lra. }
  pose proof (exp_pos (-1 / x)) as Hpos.
  pose proof max_ge_4 as Hmax.
  unfold Np.exp.
  destruct (fit_cases (Rtrigo_def.exp (-1 / x))) as [[H _]|[[_ E]|[_ E]]].
  - lra.
  - exists 0. rewrite E. repeat split; auto; lra.
  - eexists. split; [exact E|]. repeat split; auto; lra.
Qed.

(** A negative product gives a coefficient of at least 1, when it gives
    one. *)
Lemma exp_coef_neg (x c : R) :
  x < 0 -> Np.exp (-1 / x) = Some c ->
  1 <= c /\ c = Rtrigo_def.exp (-1 / x).
Proof.
  intros Hx H.
  assert (Hi : / x < 0) by (apply Rinv_lt_0_compat, Hx).
  assert (Hgt : 1 < Rtrigo_def.exp (-1 / x)).
  { rewrite <- exp_0. apply exp_increasing. unfold Rdiv. lra. }
  pose proof tiny_le_milli as Htiny.
  unfold Np.exp in H.
  destruct (fit_cases (Rtrigo_def.exp (-1 / x))) as [[_ E]|[[Hlt _]|[_ E]]].
  - rewrite E in H. discriminate.
  - lra.
  - rewrite E in H. injection H as <-. split; [lra|reflexivity].
Qed.

Lemma exp_coef_nonneg (x c : R) : Np.exp x = Some c -> 0 <= c.
Proof.
  intros H. apply (fit_some _ _ (exp_pos x)) in H. lra.
Qed.

(** ** The threshold amplitude *)

Lemma pow10_normal (y : R) : -300 <= y <= 300 -> Py.pow10 y = Ok (exp10 y).
Proof. intros Hy. unfold Py.pow10. rewrite fit_exp10 by exact Hy. reflexivity. Qed.

Lemma pow10_underflow (y : R) : y <= -350 -> Py.pow10 y = Ok 0.
Proof.
  intros Hy. unfold Py.pow10. rewrite fit_exp10_underflow by exact Hy.
  reflexivity.
Qed.

Lemma pow10_overflow (y : R) : 350 <= y -> Py.pow10 y = Raise OverflowError.
Proof.
  intros Hy. unfold Py.pow10. rewrite fit_exp10_overflow by exact Hy.
  reflexivity.
Qed.

(** [10 ** y] raises [OverflowError] or gives a float that is not
    negative. *)
Lemma pow10_cases (y : R) :
  (F64.max < exp10 y /\ Py.pow10 y = Raise OverflowError) \/
  (exp10 y < F64.tiny /\ Py.pow10 y = Ok 0) \/
  (F64.tiny <= exp10 y <= F64.max /\ Py.pow10 y = Ok (exp10 y)).
Proof.
  unfold Py.pow10.
  destruct (fit_cases (exp10 y)) as [[H E]|[[H E]|[H E]]]; rewrite E; auto.
Qed.

Lemma pow10_ok (y t : R) :
  Py.pow10 y = Ok t -> 0 <= t /\ (-300 <= y -> t = exp10 y /\ 0 < t).
Proof.
  intros H. pose proof (exp10_pos y) as Hpos.
  destruct (pow10_cases y) as [[_ E]|[[Hlt E]|[_ E]]]; rewrite E in H;
    [discriminate| |]; injection H as <-.
  - split; [lra|]. intros Hy.
    pose proof (exp10_le _ _ Hy) as Hle. rewrite exp10_minus_300 in Hle.
    pose proof tiny_bounds. lra.
  - split; [lra|]. intros _. split; [reflexivity|exact Hpos].
Qed.

(** ** The constructor *)

Section Constructor.

Variables (thr : R) (bs sr : Z) (att rel vdb : R).

(** The constructor, line by line: the conversion of the sample rate, the
    two divisions, the power of the threshold, and the two exponentials. *)
Lemma init_unfold :
  __init__ thr bs sr att rel vdb =
  if Rlt_dec F64.max (Rabs (IZR sr)) then Raise OverflowError
  else if Req_dec_T (IZR sr * att) 0 then Raise ZeroDivisionError
  else if Req_dec_T (IZR sr * rel) 0 then Raise ZeroDivisionError
  else if Rlt_dec F64.max (Rabs thr) then Raise OverflowError
  else match Py.pow10 (thr / 20) with
       | Ok ta =>
           match Np.exp (-1 / (IZR sr * att)),
                 Np.exp (-1 / (IZR sr * rel)) with
           | Some a, Some r =>
               Ok (mkGate thr bs sr
                     (Np.clip vdb (-60) 12)
                     (exp10 (Np.clip vdb (-60) 12 / 20))
                     a r 1 ta 0.1)
           | _, _ => Infinite
           end
       | Raise e => Raise e
       | Infinite => Infinite
       end.
Proof.
  unfold __init__, Py.float_of_int, Py.to_float, Py.truediv. cbv zeta.
  rewrite clip_volume.
  destruct (Rlt_dec F64.max (Rabs (IZR sr))); [reflexivity|].
  cbn [bind_result].
  destruct (Req_dec_T (IZR sr * att) 0); [reflexivity|].
  cbn [bind_result].
  destruct (Req_dec_T (IZR sr * rel) 0); [reflexivity|].
  cbn [bind_result].
  destruct (Rlt_dec F64.max (Rabs thr)); [reflexivity|].
  cbn [bind_result].
  destruct (Py.pow10 (thr / 20)); reflexivity.
Qed.

(** The gate the constructor builds when no line raises and no field
    overflows. *)
Lemma init_ok (a r t : R) :
  Rabs (IZR sr) <= F64.max ->
  IZR sr * att <> 0 -> IZR sr * rel <> 0 ->
  Np.exp (-1 / (IZR sr * att)) = Some a ->
  Np.exp (-1 / (IZR sr * rel)) = Some r ->
  Rabs thr <= F64.max ->
  Py.pow10 (thr / 20) = Ok t ->
  __init__ thr bs sr att rel vdb =
  Ok (mkGate thr bs sr
        (Np.clip vdb (-60) 12)
        (exp10 (Np.clip vdb (-60) 12 / 20))
        a r 1 t 0.1).
Proof.
  intros Hs Ha Hr Ea Er Hthr Et. rewrite init_unfold.
  destruct (Rlt_dec F64.max (Rabs (IZR sr))); [lra|].
  destruct (Req_dec_T (IZR sr * att) 0); [contradiction|].
  destruct (Req_dec_T (IZR sr * rel) 0); [contradiction|].
  destruct (Rlt_dec F64.max (Rabs thr)); [lra|].
  rewrite Et, Ea, Er. reflexivity.
Qed.




Lemma products_nonzero_iff :
  (IZR sr * att <> 0 /\ IZR sr * rel <> 0) <->
  (sr <> 0%Z /\ att <> 0 /\ rel <> 0).
Proof.
  split.
  - intros [Ha Hr]. repeat split; intros E; subst.
    + apply Ha. simpl. ring.
    + apply Ha. ring.
    + apply Hr. ring.
  - intros (Hs & Ha & Hr). split; intros E; apply Rmult_integral in E;
      destruct E as [E|E]; auto; apply Hs, eq_IZR, E.
Qed.

(** The constructor raises [OverflowError] on a sample rate beyond the
    largest double and, once both divisions are through, on a threshold
    beyond the largest double or one whose amplitude overflows. *)
Lemma init_raise_overflow_iff :
  __init__ thr bs sr att rel vdb = Raise OverflowError <->
  F64.max < Rabs (IZR sr) \/
  (sr <> 0%Z /\ att <> 0 /\ rel <> 0 /\
   (F64.max < Rabs thr \/ F64.max < exp10 (thr / 20))).
Proof.
  rewrite init_unfold.
  destruct (Rlt_dec F64.max (Rabs (IZR sr))) as [Hs|Hs]; [tauto|].
  destruct (Req_dec_T (IZR sr * att) 0) as [Ea|Ha].
  { split; [discriminate|]. intros [H|(H1 & H2 & H3 & _)]; [lra|].
    exfalso. apply Rmult_integral in Ea. destruct Ea as [E|E];
      [apply H1, eq_IZR, E | contradiction]. }
  destruct (Req_dec_T (IZR sr * rel) 0) as [Er|Hr].
  { split; [discriminate|]. intros [H|(H1 & H2 & H3 & _)]; [lra|].
    exfalso. apply Rmult_integral in Er. destruct Er as [E|E];
      [apply H1, eq_IZR, E | contradiction]. }
  pose proof (proj1 products_nonzero_iff (conj Ha Hr)) as (N1 & N2 & N3).
  destruct (Rlt_dec F64.max (Rabs thr)) as [Htm|Htm]; [split; auto 10|].
  destruct (pow10_cases (thr / 20)) as [[Hm E]|[[Hm E]|[Hm E]]]; rewrite E.
  - split; auto 10.
  - pose proof tiny_le_milli as Ht. pose proof max_ge_4 as Hx.
    destruct (Np.exp (-1 / (IZR sr * att)));
      destruct (Np.exp (-1 / (IZR sr * rel)));
      (split; [discriminate|]; intros [H|(_ & _ & _ & [H|H])]; lra).
  - destruct (Np.exp (-1 / (IZR sr * att)));
      destruct (Np.exp (-1 / (IZR sr * rel)));
      (split; [discriminate|]; intros [H|(_ & _ & _ & [H|H])]; lra).
Qed.


(** What every constructed gate carries, and what its construction says
    about the arguments. *)
Lemma init_fields (g : AudioNoiseGate) :
  __init__ thr bs sr att rel vdb = Ok g ->
  volume_db g = Np.clip vdb (-60) 12 /\
  volume g = exp10 (volume_db g / 20) /\
  Np.exp (-1 / (IZR sr * att)) = Some (attack_coef g) /\
  Np.exp (-1 / (IZR sr * rel)) = Some (release_coef g) /\
  current_gain g = 1 /\
  Py.pow10 (thr / 20) = Ok (threshold_amplitude g) /\
  inv_ratio g = 0.1 /\
  block_size g = bs /\ sample_rate g = sr /\ threshold g = thr /\
  IZR sr * att <> 0 /\ IZR sr * rel <> 0 /\ Rabs (IZR sr) <= F64.max /\
  Rabs thr <= F64.max.
Proof.
  rewrite init_unfold.
  destruct (Rlt_dec F64.max (Rabs (IZR sr))) as [|Hs]; [discriminate|].
  destruct (Req_dec_T (IZR sr * att) 0) as [|Ha]; [discriminate|].
  destruct (Req_dec_T (IZR sr * rel) 0) as [|Hr]; [discriminate|].
  destruct (Rlt_dec F64.max (Rabs thr)) as [|Ht]; [discriminate|].
  destruct (Py.pow10 (thr / 20)) as [t|e|]; [|discriminate|discriminate].
  destruct (Np.exp (-1 / (IZR sr * att))) as [a|]; [|discriminate].
  destruct (Np.exp (-1 / (IZR sr * rel))) as [r|]; [|discriminate].
  intros [= <-]. cbn. repeat split; auto; lra.
Qed.

(** The constructor reads [block_size] and [volume_db] only to store them:
    with other values for them it ends the same way. *)
Lemma init_other_block_volume (bs' : Z) (vdb' : R) :
  __init__ thr bs' sr att rel vdb' =
  match __init__ thr bs sr att rel vdb with
  | Ok g =>
      Ok (mkGate (threshold g) bs' (sample_rate g)
            (Np.clip vdb' (-60) 12)
            (exp10 (Np.clip vdb' (-60) 12 / 20))
            (attack_coef g) (release_coef g) (current_gain g)
            (threshold_amplitude g) (inv_ratio g))
  | Raise e => Raise e
  | Infinite => Infinite
  end.
Proof.
  rewrite init_unfold.
  unfold __init__, Py.float_of_int, Py.to_float, Py.truediv. cbv zeta.
  rewrite !clip_volume.
  destruct (Rlt_dec F64.max (Rabs (IZR sr))); [reflexivity|].
  cbn [bind_result].
  destruct (Req_dec_T (IZR sr * att) 0); [reflexivity|].
  cbn [bind_result].
  destruct (Req_dec_T (IZR sr * rel) 0); [reflexivity|].
  cbn [bind_result].
  destruct (Rlt_dec F64.max (Rabs thr)); [reflexivity|].
  cbn [bind_result].
  destruct (Py.pow10 (thr / 20)); cbn [bind_result]; try reflexivity.
  destruct (Np.exp (-1 / (IZR sr * att)));
    destruct (Np.exp (-1 / (IZR sr * rel))); reflexivity.
Qed.

(** Enough for the construction to succeed: a sample rate a float can
    hold, products of sample rate and time constants of magnitude at least
    1/600, and a threshold between -6000 and 6000 dB.  Negative values are
    not excluded. *)
Lemma init_succeeds :
  Rabs (IZR sr) <= F64.max ->
  1 <= 600 * Rabs (IZR sr * att) ->
  1 <= 600 * Rabs (IZR sr * rel) ->
  -6000 <= thr <= 6000 ->
  __init__ thr bs sr att rel vdb =
  Ok (mkGate thr bs sr
        (Np.clip vdb (-60) 12)
        (exp10 (Np.clip vdb (-60) 12 / 20))
        (Rtrigo_def.exp (-1 / (IZR sr * att)))
        (Rtrigo_def.exp (-1 / (IZR sr * rel)))
        1
        (exp10 (thr / 20))
        0.1).
Proof.
  intros Hs Ha Hr Ht.
  assert (Hnz : forall x, 1 <= 600 * Rabs x -> x <> 0).
  { intros x Hx E. rewrite E, Rabs_R0 in Hx. lra. }
  apply init_ok; auto.
  - apply exp_coef_normal, Ha.
  - apply exp_coef_normal, Hr.
  - pose proof max_bounds as (_ & Hmax & _).
    assert (H6 : 6000 <= 10 ^ 300) by lra.
    unfold Rabs. destruct (Rcase_abs thr); lra.
  - apply pow10_normal. lra.
Qed.

End Constructor.

(** Every constructed gate has a threshold amplitude that is not negative
    and the knee exponent 0.1. *)
Lemma init_gate_built (thr : R) (bs sr : Z) (att rel vdb : R) (g : AudioNoiseGate) :
  __init__ thr bs sr att rel vdb = Ok g -> gate_built g.
Proof.
  intros H. apply init_fields in H.
  destruct H as (_ & _ & _ & _ & _ & Ht & Hi & _).
  split; [exact (proj1 (pow10_ok _ _ Ht)) | exact Hi].
Qed.

(** From -6000 dB up, a constructed gate has a positive threshold
    amplitude, the power of ten itself. *)
Lemma init_gate_ok (thr : R) (bs sr : Z) (att rel vdb : R) (g : AudioNoiseGate) :
  __init__ thr bs sr att rel vdb = Ok g -> -6000 <= thr ->
  threshold_amplitude g = exp10 (thr / 20) /\ gate_ok g.
Proof.
  intros H Hthr. apply init_fields in H.
  destruct H as (_ & _ & _ & _ & _ & Ht & Hi & _).
  assert (Hy : -300 <= thr / 20) by lra.
  destruct (proj2 (pow10_ok _ _ Ht) Hy) as [E Hpos].
  split; [exact E|]. split; assumption.
Qed.

(** The coefficients of a constructed gate: never negative; at most 1
    under a positive product of sample rate and time constant, at least 1
    under a negative one. *)
Lemma init_coefs (thr : R) (bs sr : Z) (att rel vdb : R) (g : AudioNoiseGate) :
  __init__ thr bs sr att rel vdb = Ok g ->
  0 <= attack_coef g /\ 0 <= release_coef g /\
  (0 < IZR sr * att -> attack_coef g <= 1) /\
  (0 < IZR sr * rel -> release_coef g <= 1) /\
  (IZR sr * att < 0 -> 1 <= attack_coef g) /\
  (IZR sr * rel < 0 -> 1 <= release_coef g).
Proof.
  intros H. apply init_fields in H.
  destruct H as (_ & _ & Ha & Hr & _).
  assert (Hsign : forall x c, Np.exp (-1 / x) = Some c ->
            0 <= c /\ (0 < x -> c <= 1) /\ (x < 0 -> 1 <= c)).
  { intros x c Hc. split; [exact (exp_coef_nonneg _ _ Hc)|]. split.
    - intros Hx. destruct (exp_coef_pos x Hx) as (c' & Hc' & Hrange & _).
      rewrite Hc in Hc'. injection Hc' as <-. lra.
    - intros Hx. exact (proj1 (exp_coef_neg x c Hx Hc)). }
  destruct (Hsign _ _ Ha) as (A0 & A1 & A2).
  destruct (Hsign _ _ Hr) as (R0 & R1 & R2).
  auto 10.
Qed.

(** The default gate is what the constructor returns on its defaults. *)
Lemma init_default :
  __init__ (-35) 64 48000 default_attack_time default_release_time 0
  = Ok default_gate.
Proof.
  unfold default_gate, default_attack_time, default_release_time.
  pose proof max_ge_4 as Hmax.
  apply init_succeeds.
  - rewrite Rabs_pos_eq by lra. unfold F64.max. lra.
  - rewrite Rabs_pos_eq by lra. lra.
  - rewrite Rabs_pos_eq by lra. lra.
  - lra.
Qed.

(** A threshold of 7000 dB on the constructor's other defaults:
    [10 ** 350.0] raises. *)
Lemma init_threshold_overflow :
  __init__ 7000 64 48000 default_attack_time default_release_time 0
  = Raise OverflowError.
Proof.
  unfold default_attack_time, default_release_time.
  apply init_raise_overflow_iff. right.
  split; [discriminate|]. split; [lra|]. split; [lra|]. right.
  replace (7000 / 20) with 350 by lra.
  rewrite exp10_350. apply max_bounds.
Qed.

Lemma default_gate_ok : gate_ok default_gate.
Proof.
  refine (proj2 (init_gate_ok _ _ _ _ _ _ _ init_default _)). lra.
Qed.

Lemma default_gate_coefs :
  0 < attack_coef default_gate < 1 /\ 0 < release_coef default_gate < 1.
Proof.
  unfold default_gate, default_attack_time, default_release_time. simpl.
  assert (H : forall x, 0 < x -> 0 < Rtrigo_def.exp (-1 / x) < 1).
  { intros x Hx. split; [apply exp_pos|].
    rewrite <- exp_0. apply exp_increasing.
    assert (0 < / x) by (apply Rinv_0_lt_compat, Hx).
    unfold Rdiv. lra. }
  split; apply H; lra.
Qed.




(** ** Volume: clamping and the percentage round trip *)

(** A construction that succeeds with one [volume_db] succeeds with every
    other, and differs in the two volume fields only. *)
Lemma init_other_volume
    (thr : R) (bs sr : Z) (att rel v0 v : R) (g0 : AudioNoiseGate) :
  __init__ thr bs sr att rel v0 = Ok g0 ->
  exists g,
    __init__ thr bs sr att rel v = Ok g /\
    volume_db g = Np.clip v (-60) 12 /\
    volume g = exp10 (Np.clip v (-60) 12 / 20) /\
    attack_coef g = attack_coef g0 /\
    release_coef g = release_coef g0 /\
    threshold_amplitude g = threshold_amplitude g0.
Proof.
  intros H0.
  rewrite (init_other_block_volume thr bs sr att rel v0 bs v), H0.
  eexists. split; [reflexivity|]. cbn. repeat split; reflexivity.
Qed.

(** The constructor reads [volume_db] only through the clamp. *)
Lemma init_clip (thr : R) (bs sr : Z) (att rel v w : R) :
  Np.clip v (-60) 12 = Np.clip w (-60) 12 ->
  __init__ thr bs sr att rel v = __init__ thr bs sr att rel w.
Proof. intros H. unfold __init__. rewrite H. reflexivity. Qed.

(** C6: [volume_db] is clamped to [-60, 12] before [volume] is derived from
    it, and an out-of-range value is clamped, not rejected: where the
    construction succeeds with [volume_db = 0] it succeeds with every
    [volume_db], the gate stores the clamped value (the value itself inside
    the range) and [volume = 10 ** (clamped / 20)]; the construction with
    999 builds the very gate of the construction with 12, of volume
    [10 ** 0.6], and the one with -999 the gate of the one with -60, of
    volume 0.001. *)
Theorem C6_volume_db_clamped
    (thr : R) (bs sr : Z) (att rel vdb : R) (g0 : AudioNoiseGate) :
  __init__ thr bs sr att rel 0 = Ok g0 ->
  exists g g_hi g_lo,
    __init__ thr bs sr att rel vdb = Ok g /\
    volume_db g = Np.clip vdb (-60) 12 /\
    -60 <= volume_db g <= 12 /\
    (-60 <= vdb <= 12 -> volume_db g = vdb) /\
    (12 <= vdb -> volume_db g = 12) /\
    (vdb <= -60 -> volume_db g = -60) /\
    volume g = exp10 (volume_db g / 20) /\
    __init__ thr bs sr att rel 999 = Ok g_hi /\
    __init__ thr bs sr att rel 12 = Ok g_hi /\
    volume_db g_hi = 12 /\
    volume g_hi = exp10 (12 / 20) /\
    __init__ thr bs sr att rel (-999) = Ok g_lo /\
    __init__ thr bs sr att rel (-60) = Ok g_lo /\
    volume_db g_lo = -60 /\
    volume g_lo = 0.001.
Proof.
  intros H0.
  destruct (init_other_volume thr bs sr att rel 0 vdb g0 H0)
    as (g & Hg & Hdb & Hvol & _).
  destruct (init_other_volume thr bs sr att rel 0 12 g0 H0)
    as (ghi & Hhi & Hdbhi & Hvolhi & _).
  destruct (init_other_volume thr bs sr att rel 0 (-60) g0 H0)
    as (glo & Hlo & Hdblo & Hvollo & _).
  rewrite clip_inside in Hdbhi, Hvolhi by lra.
  rewrite clip_inside in Hdblo, Hvollo by lra.
  exists g, ghi, glo.
  split; [exact Hg|]. split; [exact Hdb|].
  split; [rewrite Hdb; apply clip_range|].
  split; [intros Hin; rewrite Hdb; apply clip_inside, Hin|].
  split; [intros Hin; rewrite Hdb; apply clip_above, Hin|].
  split; [intros Hin; rewrite Hdb; apply clip_below, Hin|].
  split; [rewrite Hvol, Hdb; reflexivity|].
  split.
  { rewrite <- Hhi. apply init_clip.
    rewrite clip_above by lra. rewrite clip_inside by lra. reflexivity. }
  split; [exact Hhi|]. split; [exact Hdbhi|]. split; [exact Hvolhi|].
  split.
  { rewrite <- Hlo. apply init_clip.
    rewrite clip_below by lra. rewrite clip_inside by lra. reflexivity. }
  split; [exact Hlo|]. split; [exact Hdblo|].
  rewrite Hvollo. exact exp10_minus_3.
Qed.

(** C6 on the constructor's defaults, asked for 30 dB: the gate is built
    and carries 12 dB. *)
Lemma C6_volume_db_clamped_witness :
  exists g g_hi g_lo,
    __init__ (-35) 64 48000 default_attack_time default_release_time 30
      = Ok g /\
    volume_db g = Np.clip 30 (-60) 12 /\
    -60 <= volume_db g <= 12 /\
    (-60 <= 30 <= 12 -> volume_db g = 30) /\
    (12 <= 30 -> volume_db g = 12) /\
    (30 <= -60 -> volume_db g = -60) /\
    volume g = exp10 (volume_db g / 20) /\
    __init__ (-35) 64 48000 default_attack_time default_release_time 999
      = Ok g_hi /\
    __init__ (-35) 64 48000 default_attack_time default_release_time 12
      = Ok g_hi /\
    volume_db g_hi = 12 /\
    volume g_hi = exp10 (12 / 20) /\
    __init__ (-35) 64 48000 default_attack_time default_release_time (-999)
      = Ok g_lo /\
    __init__ (-35) 64 48000 default_attack_time default_release_time (-60)
      = Ok g_lo /\
    volume_db g_lo = -60 /\
    volume g_lo = 0.001.
Proof.
  exact (C6_volume_db_clamped (-35) 64 48000
           default_attack_time default_release_time 30 default_gate
           init_default).
Defined.

(** [10 ** log10(x) = x] for positive [x]. *)
Lemma exp10_log10 (x l : R) : Np.log10 x = Some l -> exp10 l = x.
Proof.
  unfold Np.log10. destruct (Rlt_dec 0 x) as [Hx|]; [|discriminate].
  intros [= <-]. unfold exp10, Rpower.
  pose proof ln10_pos.
  replace (ln x / ln 10 * ln 10) with (ln x) by (field; lra).
  apply exp_ln, Hx.
Qed.

(** [2 < 10 ** 0.6], since [2 ^ 5 = 32 < 1000 = 10 ^ 3]. *)
Lemma ln2_bound : 5 * ln 2 < 3 * ln 10.
Proof.
  replace (5 * ln 2) with (ln (2 ^ 5)).
  2:{ rewrite ln_pow by lra. simpl. ring. }
  replace (3 * ln 10) with (ln (10 ^ 3)).
  2:{ rewrite ln_pow by lra. simpl. ring. }
  apply ln_increasing; lra.
Qed.

(** The decibel value the command line derives from an accepted percentage
    lies inside the constructor's clamp (between -40 dB and about +6 dB). *)
Lemma main_volume_db_range (p db : R) :
  main_volume_db p = Some db ->
  1 <= p <= 200 /\ db = 20 * (ln (p / 100) / ln 10) /\ -60 <= db <= 12.
Proof.
  unfold main_volume_db, Np.log10.
  destruct (Rlt_dec p 1) as [|H1]; [discriminate|].
  destruct (Rgt_dec p 200) as [|H2]; [discriminate|].
  destruct (Rlt_dec 0 (p / 100)) as [Hp|]; [|discriminate].
  simpl. intros [= <-].
  split; [lra|]. split; [reflexivity|].
  pose proof ln10_pos as H10.
  assert (Hlo : - (2 * ln 10) <= ln (p / 100)).
  { replace (- (2 * ln 10)) with (ln (/ 10 ^ 2)).
    2:{ rewrite ln_Rinv by lra. rewrite ln_pow by lra. simpl. ring. }
    apply ln_le; lra. }
  assert (Hhi : ln (p / 100) <= ln 2) by (apply ln_le; lra).
  pose proof ln2_bound as H2b.
  assert (Hq : -2 <= ln (p / 100) / ln 10 <= 6 / 10).
  { split.
    - apply Rmult_le_reg_r with (ln 10); [assumption|].
      unfold Rdiv. rewrite Rmult_assoc, Rinv_l by lra. lra.
    - apply Rmult_le_reg_r with (ln 10); [assumption|].
      unfold Rdiv at 1. rewrite Rmult_assoc, Rinv_l by lra. lra. }
  lra.
Qed.

Lemma main_volume_db_accepts (p : R) :
  1 <= p <= 200 ->
  main_volume_db p = Some (20 * (ln (p / 100) / ln 10)).
Proof.
  intros Hp. unfold main_volume_db, Np.log10.
  destruct (Rlt_dec p 1); [lra|].
  destruct (Rgt_dec p 200); [lra|].
  destruct (Rlt_dec 0 (p / 100)); [reflexivity|lra].
Qed.

(** An accepted percentage gives the decibel value of [main_volume_db],
    inside the clamp, and the power of ten of its twentieth is the
    percentage over 100. *)
Lemma percent_to_db_accepts (p : R) :
  1 <= p <= 200 ->
  exists db,
    percent_to_db (Finite p) = Some db /\
    main_volume_db p = Some db /\
    -60 <= db <= 12 /\
    exp10 (Np.clip db (-60) 12 / 20) = p / 100.
Proof.
  intros Hp.
  pose proof (main_volume_db_accepts p Hp) as Hdb.
  destruct (main_volume_db_range p _ Hdb) as (_ & _ & Hrange).
  exists (20 * (ln (p / 100) / ln 10)).
  split; [|split; [exact Hdb|split; [exact Hrange|]]].
  - cbn [percent_to_db]. unfold Np.log10.
    destruct (Rlt_dec 0 (p / 100)); [reflexivity|lra].
  - rewrite clip_inside by exact Hrange.
    apply exp10_log10. unfold Np.log10.
    destruct (Rlt_dec 0 (p / 100)); [|lra].
    f_equal. field. pose proof ln10_pos. lra.
Qed.



(** Whatever [volume_db] is asked for, the linear volume of a constructed
    gate lies between 0.001 (-60 dB) and just under 4 (+12 dB). *)
Theorem init_volume_range
    (thr : R) (bs sr : Z) (att rel vdb : R) (g : AudioNoiseGate) :
  __init__ thr bs sr att rel vdb = Ok g ->
  0.001 <= volume g < 4.
Proof.
  intros H. apply init_fields in H. destruct H as (Hdb & Hvol & _).
  rewrite Hvol, Hdb. apply clip_volume_range.
Qed.

Lemma init_volume_range_witness : 0.001 <= volume default_gate < 4.
Proof. exact (init_volume_range _ _ _ _ _ _ _ init_default). Defined.

(** ** The threshold amplitude *)

(** The gate built for a threshold of -7000 dB, the constructor's other
    arguments at their defaults: [10 ** -350.0] is 0.0. *)
Lemma init_underflow (bs : Z) :
  __init__ (-7000) bs 48000 default_attack_time default_release_time 0 =
  Ok (mkGate (-7000) bs 48000
        (Np.clip 0 (-60) 12)
        (exp10 (Np.clip 0 (-60) 12 / 20))
        (Rtrigo_def.exp (-1 / (IZR 48000 * default_attack_time)))
        (Rtrigo_def.exp (-1 / (IZR 48000 * default_release_time)))
        1 0 0.1).
Proof.
  unfold default_attack_time, default_release_time.
  apply init_ok.
  - rewrite Rabs_pos_eq by lra. unfold F64.max. lra.
  - lra.
  - lra.
  - apply exp_coef_normal. rewrite Rabs_pos_eq by lra. lra.
  - apply exp_coef_normal. rewrite Rabs_pos_eq by lra. lra.
  - rewrite Rabs_left by lra. unfold F64.max. lra.
  - apply pow10_underflow. lra.
Qed.

(** On a gate whose threshold amplitude is 0.0, silence divides 0 by 0. *)
Lemma zero_threshold_silence (g : AudioNoiseGate) :
  threshold_amplitude g = 0 ->
  rms [0; 0] = Some 0 /\
  target_gain g 0 = None /\
  audio_callback g [0; 0] = None.
Proof.
  intros Hthr.
  assert (Hr : rms [0; 0] = Some 0).
  { unfold rms. cbn [Np.square map Np.mean Np.sum fold_right length].
    cbn [bind_option]. unfold Np.sqrt.
    replace ((0 * 0 + (0 * 0 + 0)) / INR 2) with 0
      by (unfold Rdiv; ring).
    destruct (Rlt_dec 0 0); [lra|]. rewrite sqrt_0. reflexivity. }
  assert (Ht : target_gain g 0 = None).
  { unfold target_gain. rewrite Hthr.
    destruct (Rgt_dec 0 0); [lra|].
    unfold Np.divide. destruct (Req_dec_T 0 0); [reflexivity|contradiction]. }
  split; [exact Hr|]. split; [exact Ht|].
  unfold audio_callback. cbv zeta. rewrite Hr. cbn [bind_option].
  rewrite Ht. reflexivity.
Qed.

(** C10, as the claim states it, fails on the code: for the threshold
    -7000 dB the construction succeeds and the amplitude [10 ** -350.0] is
    0.0, a double being unable to hold so small a number; the division of
    the gate logic is then a division by zero, and the callback on a block
    of silence computes 0/0. *)
Lemma C10_threshold_amplitude_underflows :
  exists g,
    __init__ (-7000) 64 48000 default_attack_time default_release_time 0
      = Ok g /\
    threshold_amplitude g = 0 /\
    ~ 0 < threshold_amplitude g /\
    (forall r, Np.divide r (threshold_amplitude g) = None) /\
    target_gain g 0 = None.
Proof.
  eexists. split; [exact (init_underflow 64)|].
  cbn [threshold_amplitude].
  split; [reflexivity|]. split; [lra|]. split.
  - intros r. unfold Np.divide.
    destruct (Req_dec_T 0 0); [reflexivity|contradiction].
  - apply zero_threshold_silence. reflexivity.
Qed.

(** The callback writes [current_gain] only: the threshold amplitude of a
    reachable gate is the constructed gate's. *)
Lemma reachable_threshold_amplitude (g0 g : AudioNoiseGate) :
  reachable g0 g -> threshold_amplitude g = threshold_amplitude g0.
Proof.
  induction 1 as [|g g' b out Hr IH Hcb]; [reflexivity|].
  rewrite <- IH. unfold audio_callback in Hcb.
  destruct (rms b) as [r|]; [|discriminate]. simpl in Hcb.
  destruct (target_gain g r) as [t|]; [|discriminate]. simpl in Hcb.
  injection Hcb as <- _. reflexivity.
Qed.

(** C10 (amended): for every threshold of at least -6000 dB with which a
    gate is constructed, the amplitude is [10 ** (threshold / 20)] and
    strictly positive; so every gate reachable from the constructed one has
    a positive [threshold_amplitude], and the division of the gate logic by
    it is defined. *)
Theorem C10_threshold_amplitude_positive
    (thr : R) (bs sr : Z) (att rel vdb : R) (g0 g : AudioNoiseGate) :
  __init__ thr bs sr att rel vdb = Ok g0 ->
  -6000 <= thr ->
  reachable g0 g ->
  0 < exp10 (thr / 20) /\
  threshold_amplitude g = exp10 (thr / 20) /\
  0 < threshold_amplitude g /\
  (forall r, Np.divide r (threshold_amplitude g)
             = Some (r / threshold_amplitude g)).
Proof.
  intros Hinit Hthr Hreach.
  destruct (init_gate_ok _ _ _ _ _ _ _ Hinit Hthr) as [E0 [Hpos0 _]].
  pose proof (reachable_threshold_amplitude _ _ Hreach) as E.
  assert (Et : threshold_amplitude g = exp10 (thr / 20)) by congruence.
  assert (Hpos : 0 < threshold_amplitude g) by (rewrite E; exact Hpos0).
  split; [rewrite <- Et; exact Hpos|]. split; [exact Et|].
  split; [exact Hpos|].
  intros r. unfold Np.divide.
  destruct (Req_dec_T (threshold_amplitude g) 0) as [Ez|_]; [lra|reflexivity].
Qed.

(** C10 on the default gate. *)
Lemma C10_threshold_amplitude_positive_witness :
  __init__ (-35) 64 48000 default_attack_time default_release_time 0
    = Ok default_gate /\
  -6000 <= -35 /\
  reachable default_gate default_gate /\
  0 < exp10 (-35 / 20) /\
  threshold_amplitude default_gate = exp10 (-35 / 20) /\
  0 < threshold_amplitude default_gate /\
  (forall r, Np.divide r (threshold_amplitude default_gate)
             = Some (r / threshold_amplitude default_gate)).
Proof.
  assert (H : -6000 <= -35) by lra.
  split; [exact init_default|]. split; [exact H|].
  split; [apply reach_init|].
  exact (C10_threshold_amplitude_positive _ _ _ _ _ _ _ _
           init_default H (reach_init _)).
Defined.

(** ** The per-block callback *)

(** A completed callback, taken apart in the order of the source. *)
Lemma audio_callback_inv (g g' : AudioNoiseGate) (indata out : list R) :
  audio_callback g indata = Some (g', out) ->
  exists r t,
    rms indata = Some r /\
    target_gain g r = Some t /\
    g' = smooth g t /\
    out = map (fun x => x * current_gain g' * volume g') indata.
Proof.
  unfold audio_callback.
  destruct (rms indata) as [r|] eqn:Hr; [|discriminate]. simpl.
  destruct (target_gain g r) as [t|] eqn:Ht; [|discriminate]. simpl.
  intros [= <- <-]. exists r, t. repeat split; auto.
Qed.

Lemma audio_callback_intro (g : AudioNoiseGate) (indata : list R) (r t : R) :
  rms indata = Some r ->
  target_gain g r = Some t ->
  audio_callback g indata =
  Some (smooth g t,
        map (fun x => x * current_gain (smooth g t) * volume (smooth g t)) indata).
Proof.
  intros Hr Ht. unfold audio_callback. rewrite Hr. simpl. rewrite Ht.
  reflexivity.
Qed.

(** The callback writes [current_gain] and nothing else. *)
Lemma smooth_frame (g : AudioNoiseGate) (t : R) :
  threshold (smooth g t) = threshold g /\
  block_size (smooth g t) = block_size g /\
  sample_rate (smooth g t) = sample_rate g /\
  volume_db (smooth g t) = volume_db g /\
  volume (smooth g t) = volume g /\
  attack_coef (smooth g t) = attack_coef g /\
  release_coef (smooth g t) = release_coef g /\
  threshold_amplitude (smooth g t) = threshold_amplitude g /\
  inv_ratio (smooth g t) = inv_ratio g.
Proof. repeat split; reflexivity. Qed.

Lemma reachable_frame (g0 g : AudioNoiseGate) :
  reachable g0 g ->
  attack_coef g = attack_coef g0 /\
  release_coef g = release_coef g0 /\
  volume g = volume g0 /\
  threshold_amplitude g = threshold_amplitude g0 /\
  inv_ratio g = inv_ratio g0.
Proof.
  induction 1 as [|g g' b out Hr IH Hcb]; [tauto|].
  apply audio_callback_inv in Hcb.
  destruct Hcb as (r & t & _ & _ & -> & _). simpl. exact IH.
Qed.

Lemma reachable_gate_ok (g0 g : AudioNoiseGate) :
  gate_ok g0 -> reachable g0 g -> gate_ok g.
Proof.
  intros [H1 H2] Hr. apply reachable_frame in Hr.
  destruct Hr as (_ & _ & _ & Ht & Hi). split; congruence.
Qed.

(** Below the threshold the knee is a power of a ratio in [0, 1]. *)
Lemma power_unit (q e : R) :
  0 <= q <= 1 -> 0 < e ->
  exists p, Np.power q e = Some p /\ p = Spec.rpow q e /\ 0 <= p <= 1.
Proof.
  intros [Hq0 Hq1] He. unfold Np.power, Spec.rpow.
  destruct (Rlt_dec 0 q) as [Hpos|Hnpos].
  - destruct (Req_dec_T q 0) as [E|_]; [lra|].
    eexists. split; [reflexivity|]. split; [reflexivity|].
    unfold Rpower. split; [left; apply exp_pos|].
    rewrite <- exp_0.
    assert (Hln : ln q <= 0) by (rewrite <- ln_1; apply ln_le; lra).
    destruct (Req_dec_T (e * ln q) 0) as [E|Hne].
    + rewrite E. lra.
    + left. apply exp_increasing. nra.
  - destruct (Req_dec_T q 0) as [E|Hne]; [|lra].
    destruct (Rlt_dec 0 e); [|lra].
    exists 0. repeat split; lra.
Qed.

(** On a gate with a positive threshold amplitude the gate logic is
    defined for every non-negative RMS, agrees with the specification's
    formula, and gives a target between the floor 0.01 and 1. *)
Lemma target_gain_defined (g : AudioNoiseGate) (r : R) :
  gate_ok g -> 0 <= r ->
  target_gain g r = Some (Spec.targetGain (threshold_amplitude g) r) /\
  0.01 <= Spec.targetGain (threshold_amplitude g) r <= 1.
Proof.
  intros [Hthr Hinv] Hr. unfold target_gain, Spec.targetGain.
  destruct (Rgt_dec r (threshold_amplitude g)) as [Hgt|Hle].
  - split; [reflexivity|lra].
  - unfold Np.divide.
    destruct (Req_dec_T (threshold_amplitude g) 0) as [E|_]; [lra|].
    simpl.
    assert (Hq : 0 <= r / threshold_amplitude g <= 1).
    { split.
      - apply Rmult_le_pos; [lra|]. left. apply Rinv_0_lt_compat, Hthr.
      - apply Rmult_le_reg_r with (threshold_amplitude g); [assumption|].
        unfold Rdiv. rewrite Rmult_assoc, Rinv_l by lra. lra. }
    assert (He : 0 < inv_ratio g) by (rewrite Hinv; lra).
    destruct (power_unit _ _ Hq He) as (p & Hp & Hspec & Hp01).
    rewrite Hp. simpl. unfold Np.maximum, Spec.kneeExponent, Spec.minGateFloor.
    rewrite <- Hinv, <- Hspec.
    split; [reflexivity|].
    unfold Rmax. destruct (Rle_dec p 0.01); lra.
Qed.

(** On such a gate the callback completes on every non-empty block. *)
Lemma audio_callback_total (g : AudioNoiseGate) (indata : list R) :
  gate_ok g -> indata <> [] ->
  let t := Spec.targetGain (threshold_amplitude g) (Spec.RMS indata) in
  audio_callback g indata =
  Some (smooth g t,
        map (fun x => x * current_gain (smooth g t) * volume (smooth g t)) indata).
Proof.
  intros Hok Hne t.
  pose proof (rms_nonempty indata Hne) as Hr.
  pose proof (rms_nonneg _ _ Hr) as Hpos.
  destruct (target_gain_defined g _ Hok Hpos) as [Ht _].
  exact (audio_callback_intro g indata _ _ Hr Ht).
Qed.

(** The RMS of silence is 0. *)
Lemma RMS_silence (indata : list R) :
  Forall (fun x => x = 0) indata -> Spec.RMS indata = 0.
Proof.
  intros Hz. unfold Spec.RMS, Spec.mean.
  assert (Hs : fold_right Rplus 0 (map (fun s => s ^ 2) indata) = 0).
  { induction Hz as [|x l Hx _ IH]; cbn [map fold_right]; [reflexivity|].
    rewrite IH, Hx. ring. }
  rewrite Hs. unfold Rdiv. rewrite Rmult_0_l. apply sqrt_0.
Qed.

(** The one-pole step as a convex combination of old gain and target. *)
Lemma smooth_convex (g : AudioNoiseGate) (t : R) :
  current_gain (smooth g t) =
  coef g t * current_gain g + (1 - coef g t) * t.
Proof. simpl. ring. Qed.

Lemma coef_cases (g : AudioNoiseGate) (t : R) :
  (t > current_gain g /\ coef g t = attack_coef g) \/
  (t <= current_gain g /\ coef g t = release_coef g).
Proof.
  unfold coef. destruct (Rgt_dec t (current_gain g)); [left|right]; split;
    auto; lra.
Qed.

Lemma coef_in_unit (g : AudioNoiseGate) (t : R) :
  0 < attack_coef g < 1 -> 0 < release_coef g < 1 -> 0 < coef g t < 1.
Proof.
  intros Ha Hr. destruct (coef_cases g t) as [[_ ->]|[_ ->]]; assumption.
Qed.

(** On every constructed gate, also one whose threshold amplitude is 0.0,
    a target gain that is defined lies between the floor 0.01 and 1. *)
Lemma target_gain_range (g : AudioNoiseGate) (r t : R) :
  gate_built g -> 0 <= r -> target_gain g r = Some t -> 0.01 <= t <= 1.
Proof.
  intros [Hthr Hinv] Hr Ht.
  destruct (Req_dec_T (threshold_amplitude g) 0) as [E|N].
  - unfold target_gain in Ht.
    destruct (Rgt_dec r (threshold_amplitude g)).
    + injection Ht as <-. lra.
    + unfold Np.divide in Ht.
      destruct (Req_dec_T (threshold_amplitude g) 0); [|contradiction].
      discriminate.
  - assert (Hok : gate_ok g) by (split; [lra|exact Hinv]).
    destruct (target_gain_defined g r Hok Hr) as [Ht' Hrange].
    rewrite Ht in Ht'. injection Ht' as ->. exact Hrange.
Qed.

Lemma reachable_gate_built (g0 g : AudioNoiseGate) :
  gate_built g0 -> reachable g0 g -> gate_built g.
Proof.
  intros [H1 H2] Hr. apply reachable_frame in Hr.
  destruct Hr as (_ & _ & _ & Ht & Hi). split; congruence.
Qed.

Lemma coef_in_unit_closed (g : AudioNoiseGate) (t : R) :
  0 <= attack_coef g <= 1 -> 0 <= release_coef g <= 1 -> 0 <= coef g t <= 1.
Proof.
  intros Ha Hr. destruct (coef_cases g t) as [[_ ->]|[_ ->]]; assumption.
Qed.

(** The gain range of the reachable gates, for gates given by their
    fields rather than by a construction. *)
Lemma callback_gain_range (g g' : AudioNoiseGate) (b out : list R) :
  gate_built g ->
  0 <= attack_coef g <= 1 -> 0 <= release_coef g <= 1 ->
  0.01 <= current_gain g <= 1 ->
  audio_callback g b = Some (g', out) ->
  0.01 <= current_gain g' <= 1.
Proof.
  intros Hok Ha Hrel Hcur Hcb.
  apply audio_callback_inv in Hcb.
  destruct Hcb as (r & t & Hrms & Ht & Hg & _).
  pose proof (target_gain_range g r t Hok (rms_nonneg _ _ Hrms) Ht) as Hrange.
  pose proof (coef_in_unit_closed g t Ha Hrel) as Hc.
  rewrite Hg, smooth_convex.
  set (c := coef g t) in *. set (x := current_gain g) in *.
  split; nra.
Qed.

Lemma reachable_gain_range (g0 g : AudioNoiseGate) :
  gate_built g0 ->
  0 <= attack_coef g0 <= 1 -> 0 <= release_coef g0 <= 1 ->
  0.01 <= current_gain g0 <= 1 ->
  reachable g0 g ->
  0.01 <= current_gain g <= 1.
Proof.
  intros Hok Ha Hrel Hcur Hreach.
  induction Hreach as [|g g' b out Hr IH Hcb]; [assumption|].
  destruct (reachable_frame _ _ Hr) as (Hac & Hrc & _).
  apply (callback_gain_range g g' b out); try assumption.
  - exact (reachable_gate_built _ _ Hok Hr).
  - rewrite Hac. assumption.
  - rewrite Hrc. assumption.
Qed.

(** C2: on a gate with a positive threshold amplitude (as the constructor
    leaves it for a threshold of at least -6000 dB) and a non-empty block, the
    callback's RMS is sqrt(mean(sample^2)) and its target gain is 1.0 when
    the RMS exceeds the threshold amplitude and
    max((RMS / thresholdAmplitude)^0.1, 0.01) otherwise; on an all-zero
    block the RMS is 0 and the target is the floor 0.01, which is not 0. *)
Theorem C2_rms_and_target_gain (g : AudioNoiseGate) (indata : list R) :
  gate_ok g -> indata <> [] ->
  let thr := threshold_amplitude g in
  rms indata = Some (Spec.RMS indata) /\
  target_gain g (Spec.RMS indata)
    = Some (Spec.targetGain thr (Spec.RMS indata)) /\
  (Spec.RMS indata > thr -> target_gain g (Spec.RMS indata) = Some 1) /\
  (Spec.RMS indata <= thr ->
   target_gain g (Spec.RMS indata)
     = Some (Rmax (Spec.rpow (Spec.RMS indata / thr) 0.1) 0.01)) /\
  (exists out,
     audio_callback g indata
       = Some (smooth g (Spec.targetGain thr (Spec.RMS indata)), out)) /\
  (Forall (fun x => x = 0) indata ->
   Spec.RMS indata = 0 /\
   target_gain g (Spec.RMS indata) = Some 0.01 /\
   0.01 <> 0).
Proof.
  intros Hok Hne thr.
  pose proof (rms_nonempty indata Hne) as Hr.
  pose proof (rms_nonneg _ _ Hr) as Hpos.
  destruct (target_gain_defined g _ Hok Hpos) as [Ht _].
  fold thr in Ht.
  split; [exact Hr|]. split; [exact Ht|].
  split; [|split; [|split]].
  - intros Hgt. rewrite Ht. unfold Spec.targetGain.
    destruct (Rgt_dec (Spec.RMS indata) thr); [reflexivity|contradiction].
  - intros Hle. rewrite Ht. unfold Spec.targetGain.
    destruct (Rgt_dec (Spec.RMS indata) thr); [lra|reflexivity].
  - eexists. apply (audio_callback_total g indata Hok Hne).
  - intros Hz. pose proof (RMS_silence indata Hz) as H0.
    split; [exact H0|]. split; [|lra].
    rewrite Ht, H0. unfold Spec.targetGain.
    destruct Hok as [Hthr _]. fold thr in Hthr.
    destruct (Rgt_dec 0 thr); [lra|].
    unfold Spec.rpow.
    destruct (Req_dec_T (0 / thr) 0) as [_|Hne0].
    + unfold Spec.minGateFloor, Rmax.
      destruct (Rle_dec 0 0.01); [reflexivity|lra].
    + exfalso. apply Hne0. unfold Rdiv. ring.
Qed.

(** C2 on the default gate and one block of silence. *)
Lemma C2_rms_and_target_gain_witness :
  gate_ok default_gate /\ [0; 0] <> [] /\
  rms [0; 0] = Some 0 /\
  target_gain default_gate 0 = Some 0.01.
Proof.
  assert (Hne : [0; 0] <> []) by discriminate.
  assert (Hz : Forall (fun x : R => x = 0) [0; 0])
    by (repeat constructor).
  split; [exact default_gate_ok|]. split; [exact Hne|].
  destruct (C2_rms_and_target_gain default_gate [0; 0] default_gate_ok Hne)
    as (Hr & _ & _ & _ & _ & Hsil).
  destruct (Hsil Hz) as (H0 & Ht & _).
  rewrite H0 in Hr, Ht. split; assumption.
Defined.

(** The default gate after one block of silence: the target is the floor
    0.01, below the gain 1.0, so the release coefficient is used. *)
Lemma default_gate_silence :
  audio_callback default_gate [0; 0] =
  Some (smooth default_gate 0.01,
        map (fun x => x * current_gain (smooth default_gate 0.01)
                        * volume (smooth default_gate 0.01)) [0; 0]).
Proof.
  assert (Hne : [0; 0] <> []) by discriminate.
  assert (Hz : Forall (fun x : R => x = 0) [0; 0]) by (repeat constructor).
  pose proof (rms_nonempty _ Hne) as Hr.
  rewrite (RMS_silence _ Hz) in Hr.
  destruct (target_gain_defined default_gate 0 default_gate_ok (Rle_refl 0))
    as [Ht _].
  assert (Hs : Spec.targetGain (threshold_amplitude default_gate) 0 = 0.01).
  { unfold Spec.targetGain.
    pose proof (proj1 default_gate_ok) as Hthr.
    destruct (Rgt_dec 0 (threshold_amplitude default_gate)); [lra|].
    unfold Spec.rpow, Rdiv. rewrite Rmult_0_l.
    destruct (Req_dec_T 0 0) as [_|N]; [|contradiction].
    unfold Spec.minGateFloor, Rmax. destruct (Rle_dec 0 0.01); lra. }
  rewrite Hs in Ht.
  exact (audio_callback_intro default_gate [0; 0] 0 0.01 Hr Ht).
Qed.

(** The default gate on a loud block: the RMS 1.0 is above the threshold
    amplitude, the target is 1.0 and the gate stays open. *)
Lemma default_gate_loud :
  audio_callback default_gate [1; 1] =
  Some (smooth default_gate 1,
        map (fun x => x * current_gain (smooth default_gate 1)
                        * volume (smooth default_gate 1)) [1; 1]).
Proof.
  assert (Hne : [1; 1] <> []) by discriminate.
  pose proof (rms_nonempty _ Hne) as Hr.
  assert (H1 : Spec.RMS [1; 1] = 1).
  { unfold Spec.RMS, Spec.mean. cbn [map fold_right length INR].
    replace ((1 ^ 2 + (1 ^ 2 + 0)) / (1 + 1)) with 1 by field.
    apply sqrt_1. }
  rewrite H1 in Hr.
  assert (Ht : target_gain default_gate 1 = Some 1).
  { unfold target_gain.
    destruct (Rgt_dec 1 (threshold_amplitude default_gate)) as [_|N];
      [reflexivity|].
    exfalso. apply N. cbn [threshold_amplitude default_gate].
    unfold exp10, Rpower. rewrite <- exp_0 at 1.
    apply exp_increasing. pose proof ln10_pos. nra. }
  exact (audio_callback_intro default_gate [1; 1] 1 1 Hr Ht).
Qed.

(** C3: a completed callback picks [attack_coef] when the target is above
    the current gain and [release_coef] otherwise, writes
    [current_gain + (target - current_gain) * (1 - coef)] to [current_gain]
    and leaves every other field as it was; the next callback of the
    stream runs on the gate so updated. *)
Theorem C3_envelope_update (g g' : AudioNoiseGate) (indata out : list R) :
  audio_callback g indata = Some (g', out) ->
  exists r t,
    rms indata = Some r /\
    target_gain g r = Some t /\
    (t > current_gain g -> coef g t = attack_coef g) /\
    (~ t > current_gain g -> coef g t = release_coef g) /\
    current_gain g'
      = current_gain g + (t - current_gain g) * (1 - coef g t) /\
    g' = set_current_gain g (current_gain g') /\
    (forall rest,
       stream g (indata :: rest) =
       match stream g' rest with
       | Some (g'', outs) => Some (g'', out :: outs)
       | None => None
       end).
Proof.
  intros Hcb. pose proof Hcb as Hinv. apply audio_callback_inv in Hinv.
  destruct Hinv as (r & t & Hr & Ht & Hg & Hout).
  exists r, t. split; [exact Hr|]. split; [exact Ht|].
  split; [|split; [|split; [|split]]].
  - intros H. unfold coef. destruct (Rgt_dec t (current_gain g));
      [reflexivity|contradiction].
  - intros H. unfold coef. destruct (Rgt_dec t (current_gain g));
      [contradiction|reflexivity].
  - rewrite Hg. reflexivity.
  - rewrite Hg. reflexivity.
  - intros rest. cbn [stream]. rewrite Hcb. cbn [bind_option fst snd].
    destruct (stream g' rest) as [[g'' outs]|]; reflexivity.
Qed.

(** C3 on the default gate and one block of silence. *)
Lemma C3_envelope_update_witness :
  exists r t,
    rms [0; 0] = Some r /\
    target_gain default_gate r = Some t /\
    (t > current_gain default_gate ->
     coef default_gate t = attack_coef default_gate) /\
    (~ t > current_gain default_gate ->
     coef default_gate t = release_coef default_gate) /\
    current_gain (smooth default_gate 0.01)
      = current_gain default_gate
        + (t - current_gain default_gate) * (1 - coef default_gate t) /\
    smooth default_gate 0.01
      = set_current_gain default_gate
          (current_gain (smooth default_gate 0.01)) /\
    (forall rest,
       stream default_gate ([0; 0] :: rest) =
       match stream (smooth default_gate 0.01) rest with
       | Some (g'', outs) =>
           Some (g'',
                 map (fun x => x * current_gain (smooth default_gate 0.01)
                                 * volume (smooth default_gate 0.01)) [0; 0]
                 :: outs)
       | None => None
       end).
Proof.
  exact (C3_envelope_update _ _ _ _ default_gate_silence).
Defined.

(** C4: a completed callback writes, at every index, the input sample times
    the gain just updated times the volume; one gain for the whole block,
    and as many samples out as came in. *)
Theorem C4_uniform_gain (g g' : AudioNoiseGate) (indata out : list R) :
  audio_callback g indata = Some (g', out) ->
  length out = length indata /\
  volume g' = volume g /\
  out = map (fun x => x * current_gain g' * volume g) indata /\
  (forall i, (i < length indata)%nat ->
     nth i out 0 = nth i indata 0 * current_gain g' * volume g).
Proof.
  intros Hcb. apply audio_callback_inv in Hcb.
  destruct Hcb as (r & t & _ & _ & Hg & Hout).
  assert (Hv : volume g' = volume g) by (rewrite Hg; reflexivity).
  rewrite Hv in Hout.
  split; [rewrite Hout; apply length_map|].
  split; [exact Hv|]. split; [exact Hout|].
  intros i Hi. rewrite Hout.
  rewrite (nth_indep _ 0 ((fun x => x * current_gain g' * volume g) 0))
    by (rewrite length_map; exact Hi).
  apply (map_nth (fun x => x * current_gain g' * volume g)).
Qed.

(** C4 on the default gate and a loud block. *)
Lemma C4_uniform_gain_witness :
  let g' := smooth default_gate 1 in
  let out := map (fun x => x * current_gain g' * volume g') [1; 1] in
  length out = length [1; 1] /\
  volume g' = volume default_gate /\
  out = map (fun x => x * current_gain g' * volume default_gate) [1; 1] /\
  (forall i, (i < length [1; 1])%nat ->
     nth i out 0 = nth i [1; 1] 0 * current_gain g' * volume default_gate).
Proof.
  exact (C4_uniform_gain _ _ _ _ default_gate_loud).
Defined.

(** C5: with both coefficients strictly between 0 and 1, a completed
    callback leaves [current_gain] strictly between its old value and the
    call's target when the two differ, and on the target when they agree:
    it neither passes the target nor moves away from it. *)
Theorem C5_no_overshoot (g g' : AudioNoiseGate) (indata out : list R) :
  0 < attack_coef g < 1 ->
  0 < release_coef g < 1 ->
  audio_callback g indata = Some (g', out) ->
  exists r t,
    rms indata = Some r /\
    target_gain g r = Some t /\
    (current_gain g < t -> current_gain g < current_gain g' < t) /\
    (t < current_gain g -> t < current_gain g' < current_gain g) /\
    (current_gain g = t -> current_gain g' = t) /\
    Rabs (t - current_gain g') <= Rabs (t - current_gain g).
Proof.
  intros Ha Hrel Hcb. apply audio_callback_inv in Hcb.
  destruct Hcb as (r & t & Hr & Ht & Hg & _).
  exists r, t. split; [exact Hr|]. split; [exact Ht|].
  pose proof (coef_in_unit g t Ha Hrel) as Hc.
  pose proof (smooth_convex g t) as Hnew. rewrite <- Hg in Hnew.
  set (c := coef g t) in *. set (x := current_gain g) in *.
  split; [|split; [|split]].
  - intros Hlt. rewrite Hnew. split; nra.
  - intros Hlt. rewrite Hnew. split; nra.
  - intros Heq. rewrite Hnew, Heq. ring.
  - rewrite Hnew.
    replace (t - (c * x + (1 - c) * t)) with (c * (t - x)) by ring.
    rewrite Rabs_mult, (Rabs_pos_eq c) by lra.
    pose proof (Rabs_pos (t - x)). nra.
Qed.

(** C5 on the default gate and one block of silence: the gain falls from
    1.0 to a value strictly between 0.01 and 1.0. *)
Lemma C5_no_overshoot_witness :
  0 < attack_coef default_gate < 1 /\
  0 < release_coef default_gate < 1 /\
  exists r t,
    rms [0; 0] = Some r /\
    target_gain default_gate r = Some t /\
    (current_gain default_gate < t ->
     current_gain default_gate < current_gain (smooth default_gate 0.01) < t) /\
    (t < current_gain default_gate ->
     t < current_gain (smooth default_gate 0.01) < current_gain default_gate) /\
    (current_gain default_gate = t ->
     current_gain (smooth default_gate 0.01) = t) /\
    Rabs (t - current_gain (smooth default_gate 0.01))
      <= Rabs (t - current_gain default_gate).
Proof.
  split; [exact (proj1 default_gate_coefs)|].
  split; [exact (proj2 default_gate_coefs)|].
  exact (C5_no_overshoot _ _ _ _
           (proj1 default_gate_coefs) (proj2 default_gate_coefs)
           default_gate_silence).
Defined.


Lemma Forall2_map_r {A B : Type} (f : A -> B) (P : A -> B -> Prop) (l : list A) :
  (forall x, P x (f x)) -> Forall2 P l (map f l).
Proof. intros H. induction l; cbn [map]; constructor; auto. Qed.


(** From a constructed gate with both coefficients between 0 and 1, every
    reachable gain lies between 0.01 and 1. *)
Lemma init_reachable_gain
    (thr : R) (bs sr : Z) (att rel vdb : R) (g0 g : AudioNoiseGate) :
  __init__ thr bs sr att rel vdb = Ok g0 ->
  0 <= attack_coef g0 <= 1 -> 0 <= release_coef g0 <= 1 ->
  reachable g0 g ->
  0.01 <= current_gain g <= 1.
Proof.
  intros Hinit Ha Hrel Hreach.
  apply (reachable_gain_range g0 g); try assumption.
  - exact (init_gate_built _ _ _ _ _ _ _ Hinit).
  - apply init_fields in Hinit.
    destruct Hinit as (_ & _ & _ & _ & Hcur & _). rewrite Hcur. lra.
Qed.




(** C9: with both coefficients strictly between 0 and 1, every gate a
    session can reach from a constructed one has its [current_gain] between
    the floor 0.01 and 1.0, and so has every target gain computed on it. *)
Theorem C9_gain_bounded
    (thr : R) (bs sr : Z) (att rel vdb : R) (g0 g : AudioNoiseGate) :
  __init__ thr bs sr att rel vdb = Ok g0 ->
  0 < attack_coef g0 < 1 ->
  0 < release_coef g0 < 1 ->
  reachable g0 g ->
  0.01 <= current_gain g <= 1 /\
  (forall b r t,
     rms b = Some r -> target_gain g r = Some t -> 0.01 <= t <= 1).
Proof.
  intros Hinit Ha Hrel Hreach.
  pose proof (init_gate_built _ _ _ _ _ _ _ Hinit) as Hb0.
  split.
  - apply (init_reachable_gain _ _ _ _ _ _ g0 g Hinit); try lra.
    exact Hreach.
  - intros b r t Hrms Ht.
    exact (target_gain_range g r t (reachable_gate_built _ _ Hb0 Hreach)
             (rms_nonneg _ _ Hrms) Ht).
Qed.

(** C9 on the default gate after one block of silence. *)
Lemma C9_gain_bounded_witness :
  __init__ (-35) 64 48000 default_attack_time default_release_time 0
    = Ok default_gate /\
  0 < attack_coef default_gate < 1 /\
  0 < release_coef default_gate < 1 /\
  reachable default_gate (smooth default_gate 0.01) /\
  0.01 <= current_gain (smooth default_gate 0.01) <= 1 /\
  (forall b r t,
     rms b = Some r -> target_gain (smooth default_gate 0.01) r = Some t ->
     0.01 <= t <= 1).
Proof.
  assert (Hreach : reachable default_gate (smooth default_gate 0.01)).
  { exact (reach_step _ _ _ _ _ (reach_init _) default_gate_silence). }
  split; [exact init_default|].
  split; [exact (proj1 default_gate_coefs)|].
  split; [exact (proj2 default_gate_coefs)|].
  split; [exact Hreach|].
  exact (C9_gain_bounded _ _ _ _ _ _ _ _ init_default
           (proj1 default_gate_coefs) (proj2 default_gate_coefs) Hreach).
Defined.

(** Scaling silence gives silence. *)
Lemma scale_silence (b : list R) (c v : R) :
  Forall (fun x => x = 0) b -> map (fun x => x * c * v) b = b.
Proof.
  induction 1 as [|x l Hx _ IH]; [reflexivity|].
  cbn [map]. rewrite IH, Hx. f_equal. ring.
Qed.

(** One block of silence on a gate whose gain is at or above the floor:
    the release coefficient is taken, the distance to the floor is
    multiplied by it, and the block written is the block read. *)
Lemma silence_step (g : AudioNoiseGate) (b : list R) :
  gate_ok g -> b <> [] -> Forall (fun x => x = 0) b ->
  0.01 <= current_gain g ->
  exists g',
    audio_callback g b = Some (g', b) /\
    current_gain g' = 0.01 + (current_gain g - 0.01) * release_coef g /\
    release_coef g' = release_coef g /\
    gate_ok g'.
Proof.
  intros Hok Hne Hz Hcur.
  pose proof (audio_callback_total g b Hok Hne) as Hcb. cbv zeta in Hcb.
  assert (Ht : Spec.targetGain (threshold_amplitude g) (Spec.RMS b) = 0.01).
  { rewrite (RMS_silence b Hz). unfold Spec.targetGain.
    destruct Hok as [Hthr _].
    destruct (Rgt_dec 0 (threshold_amplitude g)); [lra|].
    unfold Spec.rpow, Rdiv. rewrite Rmult_0_l.
    destruct (Req_dec_T 0 0) as [_|N]; [|contradiction].
    unfold Spec.minGateFloor, Rmax. destruct (Rle_dec 0 0.01); lra. }
  rewrite Ht in Hcb.
  exists (smooth g 0.01). split; [|split; [|split]].
  - rewrite Hcb. f_equal. f_equal. apply scale_silence, Hz.
  - cbn [smooth set_current_gain current_gain]. unfold coef.
    destruct (Rgt_dec 0.01 (current_gain g)); [lra|]. ring.
  - reflexivity.
  - exact Hok.
Qed.

(** Silence decays geometrically: after [n] blocks of silence the distance
    of the gain to the floor 0.01 is the initial distance times
    [release_coef ^ n], and every block written is silence. *)
Theorem silence_decay (g : AudioNoiseGate) (blocks : list (list R)) :
  gate_ok g ->
  0 <= release_coef g ->
  0.01 <= current_gain g ->
  Forall (fun b => b <> [] /\ Forall (fun x => x = 0) b) blocks ->
  exists g',
    stream g blocks = Some (g', blocks) /\
    current_gain g'
      = 0.01 + (current_gain g - 0.01) * release_coef g ^ length blocks.
Proof.
  intros Hok Hrc Hcur Hb. revert g Hok Hrc Hcur.
  induction Hb as [|b rest [Hne Hz] _ IH]; intros g Hok Hrc Hcur.
  - exists g. split; [reflexivity|]. cbn [length pow]. ring.
  - destruct (silence_step g b Hok Hne Hz Hcur) as (g1 & Hcb & Hg1 & Hr1 & Hok1).
    assert (Hcur1 : 0.01 <= current_gain g1) by (rewrite Hg1; nra).
    assert (Hrc1 : 0 <= release_coef g1) by (rewrite Hr1; exact Hrc).
    destruct (IH g1 Hok1 Hrc1 Hcur1) as (g' & Hs & Hg').
    exists g'. split.
    + cbn [stream]. rewrite Hcb. cbn [bind_option fst snd]. rewrite Hs.
      reflexivity.
    + rewrite Hg', Hg1, Hr1. cbn [length pow]. ring.
Qed.

(** Two blocks of silence on the default gate. *)
Lemma silence_decay_witness :
  exists g',
    stream default_gate [[0; 0]; [0; 0]] = Some (g', [[0; 0]; [0; 0]]) /\
    current_gain g'
      = 0.01 + (current_gain default_gate - 0.01)
               * release_coef default_gate ^ 2.
Proof.
  apply (silence_decay default_gate [[0; 0]; [0; 0]]).
  - exact default_gate_ok.
  - left. exact (proj1 (proj2 default_gate_coefs)).
  - cbn [current_gain default_gate]. lra.
  - repeat constructor; discriminate.
Defined.

(** Silence converges to the floor, not to 0: with a release coefficient
    below 1, every long enough run of silence brings the gain as close to
    0.01 as asked, from above. *)
Theorem silence_converges (g : AudioNoiseGate) (eps : R) :
  gate_ok g ->
  0 <= release_coef g < 1 ->
  0.01 <= current_gain g ->
  0 < eps ->
  exists N : nat,
    forall blocks,
      Forall (fun b => b <> [] /\ Forall (fun x => x = 0) b) blocks ->
      (N <= length blocks)%nat ->
      exists g',
        stream g blocks = Some (g', blocks) /\
        0.01 <= current_gain g' < 0.01 + eps.
Proof.
  intros Hok [Hrc0 Hrc1] Hcur Heps.
  set (d := current_gain g - 0.01).
  assert (Hd : 0 <= d) by (unfold d; lra).
  assert (Hy : 0 < eps / (d + 1)).
  { apply Rdiv_lt_0_compat; lra. }
  assert (Habs : Rabs (release_coef g) < 1) by (rewrite Rabs_pos_eq; lra).
  destruct (pow_lt_1_zero _ Habs _ Hy) as [N HN].
  exists N. intros blocks Hb Hlen.
  destruct (silence_decay g blocks Hok Hrc0 Hcur Hb) as (g' & Hs & Hg').
  exists g'. split; [exact Hs|].
  specialize (HN (length blocks) Hlen).
  assert (Hpow : 0 <= release_coef g ^ length blocks) by (apply pow_le, Hrc0).
  rewrite Rabs_pos_eq in HN by exact Hpow.
  fold d in Hg'. rewrite Hg'.
  assert (Hlt : release_coef g ^ length blocks * (d + 1) < eps).
  { apply Rmult_lt_reg_r with (/ (d + 1)).
    - apply Rinv_0_lt_compat. lra.
    - rewrite Rmult_assoc, Rinv_r by lra. unfold Rdiv in HN. lra. }
  split; nra.
Qed.

(** The default gate: a bound on the gain after enough silence. *)
Lemma silence_converges_witness :
  exists N : nat,
    forall blocks,
      Forall (fun b => b <> [] /\ Forall (fun x => x = 0) b) blocks ->
      (N <= length blocks)%nat ->
      exists g',
        stream default_gate blocks = Some (g', blocks) /\
        0.01 <= current_gain g' < 0.01 + 0.001.
Proof.
  apply (silence_converges default_gate 0.001).
  - exact default_gate_ok.
  - destruct default_gate_coefs as [_ [H0 H1]]. split; [left|]; assumption.
  - cbn [current_gain default_gate]. lra.
  - lra.
Defined.

(** One loud block (RMS above the threshold amplitude) on a gate whose
    gain is at most 1: the distance to 1 is multiplied by the attack
    coefficient. *)
Lemma loud_step (g : AudioNoiseGate) (b : list R) :
  gate_ok g -> b <> [] -> Spec.RMS b > threshold_amplitude g ->
  current_gain g <= 1 ->
  exists g',
    audio_callback g b
      = Some (g', map (fun x => x * current_gain g' * volume g) b) /\
    current_gain g' = 1 - (1 - current_gain g) * attack_coef g /\
    g' = set_current_gain g (current_gain g').
Proof.
  intros Hok Hne Hloud Hcur.
  pose proof (audio_callback_total g b Hok Hne) as Hcb. cbv zeta in Hcb.
  assert (Ht : Spec.targetGain (threshold_amplitude g) (Spec.RMS b) = 1).
  { unfold Spec.targetGain.
    destruct (Rgt_dec (Spec.RMS b) (threshold_amplitude g));
      [reflexivity|contradiction]. }
  rewrite Ht in Hcb.
  exists (smooth g 1). split; [exact Hcb|]. split; [|reflexivity].
  cbn [smooth set_current_gain current_gain]. unfold coef.
  destruct (Rgt_dec 1 (current_gain g)) as [Hlt|Hge]; [ring|].
  assert (E : current_gain g = 1) by lra. rewrite E. ring.
Qed.

(** Loud signal opens the gate geometrically: after [n] loud blocks the
    distance of the gain to 1 is the initial distance times
    [attack_coef ^ n]. *)
Theorem loud_attack (g : AudioNoiseGate) (blocks : list (list R)) :
  gate_ok g ->
  0 <= attack_coef g ->
  current_gain g <= 1 ->
  Forall (fun b => b <> [] /\ Spec.RMS b > threshold_amplitude g) blocks ->
  exists g' outs,
    stream g blocks = Some (g', outs) /\
    current_gain g'
      = 1 - (1 - current_gain g) * attack_coef g ^ length blocks.
Proof.
  intros Hok Hac Hcur Hb.
  remember (threshold_amplitude g) as thr eqn:Hthr in Hb.
  revert g Hok Hac Hcur Hthr.
  induction Hb as [|b rest [Hne Hloud] _ IH]; intros g Hok Hac Hcur Hthr.
  - exists g, []. split; [reflexivity|]. cbn [length pow]. ring.
  - rewrite Hthr in Hloud.
    destruct (loud_step g b Hok Hne Hloud Hcur) as (g1 & Hcb & Hg1 & Hset).
    assert (Hframe : gate_ok g1 /\ attack_coef g1 = attack_coef g /\
                     threshold_amplitude g1 = threshold_amplitude g).
    { rewrite Hset. repeat split; try reflexivity; apply Hok. }
    destruct Hframe as (Hok1 & Ha1 & Hthr1).
    assert (Hcur1 : current_gain g1 <= 1) by (rewrite Hg1; nra).
    assert (Hac1 : 0 <= attack_coef g1) by (rewrite Ha1; exact Hac).
    assert (Hthr' : thr = threshold_amplitude g1) by congruence.
    destruct (IH g1 Hok1 Hac1 Hcur1 Hthr') as (g' & outs & Hs & Hg').
    exists g'. eexists. split.
    + cbn [stream]. rewrite Hcb. cbn [bind_option fst snd]. rewrite Hs.
      reflexivity.
    + rewrite Hg', Hg1, Ha1. cbn [length pow]. ring.
Qed.

Lemma RMS_ones : Spec.RMS [1; 1] = 1.
Proof.
  unfold Spec.RMS, Spec.mean. cbn [map fold_right length INR].
  replace ((1 ^ 2 + (1 ^ 2 + 0)) / (1 + 1)) with 1 by field.
  apply sqrt_1.
Qed.

Lemma default_threshold_below_one : threshold_amplitude default_gate < 1.
Proof.
  cbn [threshold_amplitude default_gate].
  unfold exp10, Rpower. rewrite <- exp_0.
  apply exp_increasing. pose proof ln10_pos. nra.
Qed.

(** Two loud blocks on the default gate. *)
Lemma loud_attack_witness :
  exists g' outs,
    stream default_gate [[1; 1]; [1; 1]] = Some (g', outs) /\
    current_gain g'
      = 1 - (1 - current_gain default_gate) * attack_coef default_gate ^ 2.
Proof.
  apply (loud_attack default_gate [[1; 1]; [1; 1]]).
  - exact default_gate_ok.
  - left. exact (proj1 (proj1 default_gate_coefs)).
  - cbn [current_gain default_gate]. lra.
  - pose proof default_threshold_below_one.
    repeat constructor; try discriminate; rewrite RMS_ones; lra.
Defined.

Lemma set_current_gain_same (g : AudioNoiseGate) :
  set_current_gain g (current_gain g) = g.
Proof. destruct g. reflexivity. Qed.

(** An open gate passes loud signal unchanged: with the gain at 1.0, as
    the constructor leaves it, a stream of loud blocks leaves the gate as
    it is and every sample written is the sample read times the volume. *)
Theorem open_gate_passes_loud (g : AudioNoiseGate) (blocks : list (list R)) :
  gate_ok g ->
  current_gain g = 1 ->
  Forall (fun b => b <> [] /\ Spec.RMS b > threshold_amplitude g) blocks ->
  stream g blocks = Some (g, map (map (fun x => x * volume g)) blocks).
Proof.
  intros Hok Hcur Hb.
  induction Hb as [|b rest [Hne Hloud] _ IH]; [reflexivity|].
  assert (Hle : current_gain g <= 1) by lra.
  destruct (loud_step g b Hok Hne Hloud Hle) as (g1 & Hcb & Hg1 & Hset).
  assert (Hcur1 : current_gain g1 = 1) by (rewrite Hg1, Hcur; ring).
  assert (Hsame : g1 = g).
  { rewrite Hset, Hcur1, <- Hcur. apply set_current_gain_same. }
  subst g1.
  cbn [stream map]. rewrite Hcb. cbn [bind_option fst snd]. rewrite IH.
  cbn [bind_option fst snd]. do 3 f_equal.
  apply map_ext. intros x. rewrite Hcur. ring.
Qed.

(** The default gate on two loud blocks. *)
Lemma open_gate_passes_loud_witness :
  stream default_gate [[1; 1]; [1; 1]] =
  Some (default_gate,
        map (map (fun x => x * volume default_gate)) [[1; 1]; [1; 1]]).
Proof.
  apply (open_gate_passes_loud default_gate [[1; 1]; [1; 1]]).
  - exact default_gate_ok.
  - reflexivity.
  - pose proof default_threshold_below_one.
    repeat constructor; try discriminate; rewrite RMS_ones; lra.
Defined.

(** ** Polarity and magnitude *)

Lemma square_opp (a : list R) : Np.square (map Ropp a) = Np.square a.
Proof.
  unfold Np.square. rewrite map_map. apply map_ext. intros x. ring.
Qed.

Lemma rms_opp (a : list R) : rms (map Ropp a) = rms a.
Proof. unfold rms. rewrite square_opp. reflexivity. Qed.

(** The gate does not see polarity: on the inverted block the callback
    leaves the same gate and writes the inverted output. *)
Theorem audio_callback_opp (g : AudioNoiseGate) (indata : list R) :
  audio_callback g (map Ropp indata) =
  match audio_callback g indata with
  | Some (g', out) => Some (g', map Ropp out)
  | None => None
  end.
Proof.
  unfold audio_callback. cbv zeta. rewrite rms_opp.
  destruct (rms indata) as [r|]; [|reflexivity]. cbn [bind_option].
  destruct (target_gain g r) as [t|]; [|reflexivity]. cbn [bind_option].
  do 2 f_equal. rewrite !map_map. apply map_ext. intros x. ring.
Qed.

(** The gate never amplifies beyond its volume and never mutes: on every
    gate a session can reach from a constructed one (coefficients in
    (0,1)), each sample written has a magnitude between 0.01 and 1 times
    volume times the magnitude read, so below 4 times the magnitude
    read. *)
Theorem output_bounded
    (thr : R) (bs sr : Z) (att rel vdb : R)
    (g0 g g' : AudioNoiseGate) (indata out : list R) :
  __init__ thr bs sr att rel vdb = Ok g0 ->
  0 < attack_coef g0 < 1 ->
  0 < release_coef g0 < 1 ->
  reachable g0 g ->
  audio_callback g indata = Some (g', out) ->
  Forall2 (fun x y =>
             0.01 * volume g0 * Rabs x <= Rabs y <= volume g0 * Rabs x /\
             Rabs y <= 4 * Rabs x) indata out.
Proof.
  intros Hinit Ha Hrel Hreach Hcb.
  pose proof (init_volume_range _ _ _ _ _ _ _ Hinit) as Hvol.
  assert (Hgain : 0.01 <= current_gain g' <= 1).
  { apply (init_reachable_gain _ _ _ _ _ _ g0 g' Hinit); try lra.
    exact (reach_step g0 g g' indata out Hreach Hcb). }
  destruct (reachable_frame _ _ Hreach) as (_ & _ & Hv & _).
  apply audio_callback_inv in Hcb.
  destruct Hcb as (r & t & _ & _ & Hg & Hout).
  assert (Hv' : volume g' = volume g0) by (rewrite Hg; exact Hv).
  rewrite Hout, Hv'. apply Forall2_map_r. intros x.
  rewrite !Rabs_mult.
  rewrite (Rabs_pos_eq (current_gain g')), (Rabs_pos_eq (volume g0)) by lra.
  pose proof (Rabs_pos x) as Hx.
  set (c := current_gain g') in *. set (v := volume g0) in *.
  set (ax := Rabs x) in *.
  assert (0 <= ax * v) by nra.
  assert (ax * c * v <= ax * v) by nra.
  assert (0.01 * (ax * v) <= ax * c * v) by nra.
  repeat split; nra.
Qed.

(** The default gate after one loud block. *)
Lemma output_bounded_witness :
  Forall2 (fun x y =>
             0.01 * volume default_gate * Rabs x <= Rabs y
               <= volume default_gate * Rabs x /\
             Rabs y <= 4 * Rabs x)
    [1; 1]
    (map (fun x => x * current_gain (smooth default_gate 1)
                    * volume (smooth default_gate 1)) [1; 1]).
Proof.
  exact (output_bounded _ _ _ _ _ _ _ _ _ _ _ init_default
           (proj1 default_gate_coefs) (proj2 default_gate_coefs)
           (reach_init _) default_gate_loud).
Defined.

Lemma sum_square_bounds (a : list R) (m M : R) :
  0 <= m ->
  Forall (fun x => m <= Rabs x <= M) a ->
  INR (length a) * (m * m) <= Np.sum (Np.square a) <= INR (length a) * (M * M).
Proof.
  intros Hm. induction 1 as [|x l Hx _ IH].
  - cbn. lra.
  - change (Np.sum (Np.square (x :: l)))
      with (x * x + Np.sum (Np.square l)).
    change (length (x :: l)) with (S (length l)). rewrite S_INR.
    assert (Hsq : x * x = Rabs x * Rabs x).
    { unfold Rabs. destruct (Rcase_abs x); ring. }
    rewrite Hsq. set (ax := Rabs x) in *. nra.
Qed.

(** The RMS lies between the smallest and the largest magnitude of the
    block; in particular the RMS of a block of constant magnitude is that
    magnitude. *)
Theorem rms_bounds (a : list R) (m M : R) :
  a <> [] ->
  0 <= m ->
  Forall (fun x => m <= Rabs x <= M) a ->
  exists r, rms a = Some r /\ m <= r <= M.
Proof.
  intros Hne Hm Ha.
  exists (Spec.RMS a). split; [apply rms_nonempty, Hne|].
  pose proof (rms_nonempty a Hne) as Hr.
  unfold rms in Hr.
  destruct a as [|x a]; [congruence|].
  remember (x :: a) as b eqn:Hb.
  assert (Hmean : Np.mean (Np.square b)
                  = Some (Np.sum (Np.square b) / INR (length (Np.square b)))).
  { subst b. reflexivity. }
  rewrite Hmean in Hr. cbn [bind_option] in Hr.
  unfold Np.sqrt in Hr.
  destruct (Rlt_dec _ 0) as [|Hnn]; [discriminate|].
  injection Hr as Hr. rewrite <- Hr.
  rewrite length_square in *.
  pose proof (sum_square_bounds b m M Hm Ha) as [Hlo Hhi].
  assert (Hn : 0 < INR (length b)).
  { subst b. cbn [length]. rewrite S_INR. pose proof (pos_INR (length a)). lra. }
  assert (HM : m <= M).
  { subst b. inversion Ha; subst. lra. }
  set (S := Np.sum (Np.square b)) in *. set (n := INR (length b)) in *.
  assert (Hq : m * m <= S / n <= M * M).
  { assert (E : S / n * n = S) by (field; lra).
    split; apply Rmult_le_reg_r with n; try exact Hn; rewrite E; lra. }
  split.
  - rewrite <- (sqrt_square m) at 1 by exact Hm.
    apply sqrt_le_1; nra.
  - rewrite <- (sqrt_square M) by lra.
    apply sqrt_le_1; nra.
Qed.

(** A block of samples 0.5 and -0.5 has RMS 0.5. *)
Lemma rms_bounds_witness :
  exists r, rms [0.5; -0.5] = Some r /\ 0.5 <= r <= 0.5.
Proof.
  apply (rms_bounds [0.5; -0.5] 0.5 0.5).
  - discriminate.
  - lra.
  - repeat constructor; unfold Rabs; destruct (Rcase_abs _); lra.
Defined.

(** ** The shape of the soft knee *)

Lemma rpow_nonneg (q e : R) : 0 <= Spec.rpow q e.
Proof.
  unfold Spec.rpow. destruct (Req_dec_T q 0); [lra|].
  unfold Rpower. left. apply exp_pos.
Qed.

Lemma rpow_mono (q1 q2 e : R) :
  0 <= e -> 0 <= q1 <= q2 -> Spec.rpow q1 e <= Spec.rpow q2 e.
Proof.
  intros He [H1 H12]. unfold Spec.rpow at 1.
  destruct (Req_dec_T q1 0) as [E|N]; [apply rpow_nonneg|].
  unfold Spec.rpow. destruct (Req_dec_T q2 0) as [E2|_]; [lra|].
  apply Rle_Rpower_l; lra.
Qed.

(** A louder block never gets a lower target gain. *)
Theorem target_gain_monotone (g : AudioNoiseGate) (r1 r2 : R) :
  gate_ok g ->
  0 <= r1 <= r2 ->
  exists t1 t2,
    target_gain g r1 = Some t1 /\
    target_gain g r2 = Some t2 /\
    t1 <= t2.
Proof.
  intros Hok [H1 H12].
  destruct (target_gain_defined g r1 Hok H1) as [Ht1 Hr1].
  assert (H2 : 0 <= r2) by lra.
  destruct (target_gain_defined g r2 Hok H2) as [Ht2 Hr2].
  eexists. eexists. split; [exact Ht1|]. split; [exact Ht2|].
  destruct Hok as [Hthr _].
  set (thr := threshold_amplitude g) in *.
  unfold Spec.targetGain in *.
  destruct (Rgt_dec r2 thr) as [Hgt2|Hle2]; [lra|].
  destruct (Rgt_dec r1 thr) as [Hgt1|Hle1]; [lra|].
  assert (Hq : 0 <= r1 / thr <= r2 / thr).
  { assert (0 < / thr) by (apply Rinv_0_lt_compat, Hthr).
    unfold Rdiv. split; nra. }
  assert (He : 0 <= Spec.kneeExponent) by (unfold Spec.kneeExponent; lra).
  pose proof (rpow_mono _ _ _ He Hq) as Hmono.
  apply Rle_max_compat_r. exact Hmono.
Qed.

Lemma target_gain_monotone_witness :
  exists t1 t2,
    target_gain default_gate 0 = Some t1 /\
    target_gain default_gate 1 = Some t2 /\
    t1 <= t2.
Proof.
  apply (target_gain_monotone default_gate 0 1 default_gate_ok). lra.
Defined.

Lemma Rpower_tenth_pow10 (q : R) : 0 < q -> Rpower q 0.1 ^ 10 = q.
Proof.
  intros Hq.
  rewrite <- Rpower_pow by (unfold Rpower; apply exp_pos).
  rewrite Rpower_mult.
  replace (0.1 * INR 10) with 1 by (simpl; lra).
  apply Rpower_1, Hq.
Qed.

(** The knee is a tenth root: at or below the threshold the target gain
    is the larger of 0.01 and the [p >= 0] with
    [p ^ 10 = rms / threshold_amplitude]; and at the threshold itself the
    target is 1, so the knee meets the open gate without a jump. *)
Theorem knee_is_tenth_root (g : AudioNoiseGate) (r : R) :
  gate_ok g ->
  0 <= r <= threshold_amplitude g ->
  (exists p,
     0 <= p /\
     p ^ 10 = r / threshold_amplitude g /\
     target_gain g r = Some (Rmax p 0.01)) /\
  target_gain g (threshold_amplitude g) = Some 1.
Proof.
  intros Hok [Hr0 Hr1].
  pose proof Hok as [Hthr Hinv].
  set (thr := threshold_amplitude g) in *.
  assert (Hknee : forall r', 0 <= r' <= thr ->
            target_gain g r'
            = Some (Rmax (Spec.rpow (r' / thr) 0.1) 0.01)).
  { intros r' [H0 H1].
    destruct (target_gain_defined g r' Hok H0) as [Ht _]. rewrite Ht.
    fold thr. unfold Spec.targetGain.
    destruct (Rgt_dec r' thr); [lra|reflexivity]. }
  split.
  - exists (Spec.rpow (r / thr) 0.1).
    split; [apply rpow_nonneg|]. split; [|apply Hknee; lra].
    unfold Spec.rpow. destruct (Req_dec_T (r / thr) 0) as [E|N].
    + rewrite E. simpl. ring.
    + apply Rpower_tenth_pow10.
      assert (0 < / thr) by (apply Rinv_0_lt_compat, Hthr).
      assert (0 <= r / thr) by (unfold Rdiv; nra). lra.
  - rewrite Hknee by lra.
    replace (thr / thr) with 1 by (field; lra).
    unfold Spec.rpow. destruct (Req_dec_T 1 0); [lra|].
    unfold Rpower. rewrite ln_1, Rmult_0_r, exp_0.
    unfold Rmax. destruct (Rle_dec 1 0.01); [lra|reflexivity].
Qed.

Lemma knee_is_tenth_root_witness :
  (exists p,
     0 <= p /\
     p ^ 10 = 0 / threshold_amplitude default_gate /\
     target_gain default_gate 0 = Some (Rmax p 0.01)) /\
  target_gain default_gate (threshold_amplitude default_gate) = Some 1.
Proof.
  apply (knee_is_tenth_root default_gate 0 default_gate_ok).
  pose proof (proj1 default_gate_ok). lra.
Defined.

(** ** Signs of the time constants *)

(** An attack time of 10 ns at 48000 Hz: [np.exp(-1.0 / 0.00048)] is 0.0,
    the exponential being too small for a double. *)
Lemma init_attack_underflow :
  exists g,
    __init__ (-35) 64 48000 (1 / 100000000) default_release_time 0 = Ok g /\
    attack_coef g = 0.
Proof.
  unfold default_release_time.
  assert (Hexp : Rtrigo_def.exp (-1 / (IZR 48000 * (1 / 100000000)))
                 < F64.tiny).
  { assert (H1 : Rtrigo_def.exp (-1 / (IZR 48000 * (1 / 100000000)))
                 <= Rtrigo_def.exp (- INR 2000)).
    { apply exp_le. rewrite INR_IZR_INZ.
      change (IZR (Z.of_nat 2000)) with 2000.
      apply Rmult_le_reg_r with (IZR 48000 * (1 / 100000000)); [lra|].
      unfold Rdiv. rewrite Rmult_assoc, Rinv_l by lra. lra. }
    rewrite exp_Ropp, exp_nat in H1.
    assert (H2 : 2 ^ 2000 <= Rtrigo_def.exp 1 ^ 2000).
    { apply pow_incr. pose proof (exp_ineq1_le 1). lra. }
    assert (H3 : 0 < 2 ^ 2000) by (apply pow_lt; lra).
    assert (H4 : / Rtrigo_def.exp 1 ^ 2000 <= / 2 ^ 2000)
      by (apply Rinv_le_contravar; assumption).
    assert (H5 : / 2 ^ 2000 < F64.tiny) by (unfold F64.tiny; lra).
    lra. }
  eexists. split.
  - apply init_ok.
    + rewrite Rabs_pos_eq by lra. unfold F64.max. lra.
    + lra.
    + lra.
    + unfold Np.exp. apply fit_underflow, Hexp.
    + apply exp_coef_normal. rewrite Rabs_pos_eq by lra. lra.
    + rewrite Rabs_left by lra. unfold F64.max. lra.
    + apply pow10_normal. lra.
  - reflexivity.
Qed.

(** The constructor's coefficients are never negative (0.0 when the
    exponential underflows).  A positive product of sample rate and time
    constant gives a coefficient of at most 1, a negative product, which
    the constructor accepts, one of at least 1; a coefficient below 1
    comes from a positive product only, one above 1 from a negative
    product only. *)
Theorem init_coefs_sign
    (thr : R) (bs sr : Z) (att rel vdb : R) (g : AudioNoiseGate) :
  __init__ thr bs sr att rel vdb = Ok g ->
  0 <= attack_coef g /\ 0 <= release_coef g /\
  (0 < IZR sr * att -> attack_coef g <= 1) /\
  (0 < IZR sr * rel -> release_coef g <= 1) /\
  (IZR sr * att < 0 -> 1 <= attack_coef g) /\
  (IZR sr * rel < 0 -> 1 <= release_coef g) /\
  (attack_coef g < 1 -> 0 < IZR sr * att) /\
  (release_coef g < 1 -> 0 < IZR sr * rel) /\
  (1 < attack_coef g -> IZR sr * att < 0) /\
  (1 < release_coef g -> IZR sr * rel < 0).
Proof.
  intros H.
  destruct (init_coefs _ _ _ _ _ _ _ H) as (A0 & R0 & A1 & R1 & A2 & R2).
  apply init_fields in H.
  destruct H as (_ & _ & _ & _ & _ & _ & _ & _ & _ & _ & Hna & Hnr & _).
  split; [exact A0|]. split; [exact R0|].
  split; [intros Hp; specialize (A1 Hp); lra|].
  split; [intros Hp; specialize (R1 Hp); lra|].
  split; [intros Hp; specialize (A2 Hp); lra|].
  split; [intros Hp; specialize (R2 Hp); lra|].
  split.
  { intros Hc. destruct (Rlt_dec 0 (IZR sr * att)) as [|N]; [assumption|].
    assert (Hneg : IZR sr * att < 0) by lra. specialize (A2 Hneg). lra. }
  split.
  { intros Hc. destruct (Rlt_dec 0 (IZR sr * rel)) as [|N]; [assumption|].
    assert (Hneg : IZR sr * rel < 0) by lra. specialize (R2 Hneg). lra. }
  split.
  { intros Hc. destruct (Rlt_dec (IZR sr * att) 0) as [|N]; [assumption|].
    assert (Hpos : 0 < IZR sr * att) by lra. specialize (A1 Hpos). lra. }
  intros Hc. destruct (Rlt_dec (IZR sr * rel) 0) as [|N]; [assumption|].
  assert (Hpos : 0 < IZR sr * rel) by lra. specialize (R1 Hpos). lra.
Qed.

Lemma init_coefs_sign_witness :
  0 <= attack_coef default_gate /\ 0 <= release_coef default_gate /\
  (0 < IZR 48000 * default_attack_time -> attack_coef default_gate <= 1) /\
  (0 < IZR 48000 * default_release_time -> release_coef default_gate <= 1) /\
  (IZR 48000 * default_attack_time < 0 -> 1 <= attack_coef default_gate) /\
  (IZR 48000 * default_release_time < 0 -> 1 <= release_coef default_gate) /\
  (attack_coef default_gate < 1 -> 0 < IZR 48000 * default_attack_time) /\
  (release_coef default_gate < 1 -> 0 < IZR 48000 * default_release_time) /\
  (1 < attack_coef default_gate -> IZR 48000 * default_attack_time < 0) /\
  (1 < release_coef default_gate -> IZR 48000 * default_release_time < 0).
Proof. exact (init_coefs_sign _ _ _ _ _ _ _ init_default). Defined.

(** With both coefficients above 1, as a negative sample rate or negative
    time constants leave them, the callback moves the gain away from the
    target: the distance grows whenever it is not zero. *)
Theorem coef_above_one_moves_away
    (g g' : AudioNoiseGate) (indata out : list R) :
  1 < attack_coef g ->
  1 < release_coef g ->
  audio_callback g indata = Some (g', out) ->
  exists r t,
    rms indata = Some r /\
    target_gain g r = Some t /\
    (current_gain g <> t ->
     Rabs (t - current_gain g) < Rabs (t - current_gain g')) /\
    (current_gain g < t -> current_gain g' < current_gain g) /\
    (t < current_gain g -> current_gain g < current_gain g').
Proof.
  intros Ha Hrel Hcb. apply audio_callback_inv in Hcb.
  destruct Hcb as (r & t & Hr & Ht & Hg & _).
  exists r, t. split; [exact Hr|]. split; [exact Ht|].
  assert (Hc : 1 < coef g t).
  { destruct (coef_cases g t) as [[_ ->]|[_ ->]]; assumption. }
  pose proof (smooth_convex g t) as Hnew. rewrite <- Hg in Hnew.
  set (c := coef g t) in *. set (x := current_gain g) in *.
  split; [|split].
  - intros Hne. rewrite Hnew.
    replace (t - (c * x + (1 - c) * t)) with (c * (t - x)) by ring.
    rewrite Rabs_mult, (Rabs_pos_eq c) by lra.
    assert (0 < Rabs (t - x)) by (apply Rabs_pos_lt; lra). nra.
  - intros Hlt. rewrite Hnew. nra.
  - intros Hlt. rewrite Hnew. nra.
Qed.

(** A gate with both coefficients at 2, fed one block of silence. *)
Lemma coef_above_one_moves_away_witness :
  let g := mkGate (-35) 64 (-48000) 0 1 2 2 1 0.5 0.1 in
  exists g' out,
    audio_callback g [0; 0] = Some (g', out) /\
    exists r t,
      rms [0; 0] = Some r /\
      target_gain g r = Some t /\
      (current_gain g <> t ->
       Rabs (t - current_gain g) < Rabs (t - current_gain g')) /\
      (current_gain g < t -> current_gain g' < current_gain g) /\
      (t < current_gain g -> current_gain g < current_gain g').
Proof.
  intros g.
  assert (Hok : gate_ok g) by (split; cbn; lra).
  assert (Hne : [0; 0] <> []) by discriminate.
  pose proof (audio_callback_total g [0; 0] Hok Hne) as Hcb. cbv zeta in Hcb.
  eexists. eexists. split; [exact Hcb|].
  refine (coef_above_one_moves_away g _ [0; 0] _ _ _ Hcb); cbn; lra.
Defined.

(** ** Starting a constructed gate *)



(** ** The command line *)

Lemma contains_getitem (d : list (String.string * preset)) (key : String.string) :
  contains d key = true <-> exists p, getitem d key = Some p.
Proof.
  unfold contains. induction d as [|[k v] d IH]; cbn [existsb getitem fst].
  - split; [discriminate|]. intros [p Hp]. discriminate.
  - destruct (String.eqb key k); cbn [orb].
    + split; eauto.
    + exact IH.
Qed.

(** Every preset has threshold -25 and one of the four block sizes. *)
Lemma PRESETS_entries (key : String.string) (p : preset) :
  getitem PRESETS key = Some p ->
  preset_threshold p = -25 /\
  In (preset_block_size p) [32; 64; 128; 256]%Z.
Proof.
  unfold PRESETS. cbn [getitem].
  repeat (destruct (String.eqb key _);
          [intros [= <-]; cbn; split; [reflexivity|tauto]|]).
  discriminate.
Qed.

Lemma lower_ascii_idempotent (c : Ascii.ascii) :
  lower_ascii (lower_ascii c) = lower_ascii c.
Proof. destruct c as [[] [] [] [] [] [] [] []]; reflexivity. Qed.

Lemma lower_idempotent (s : String.string) : lower (lower s) = lower s.
Proof.
  induction s as [|c s IH]; [reflexivity|].
  cbn [lower]. rewrite lower_ascii_idempotent, IH. reflexivity.
Qed.

(** A coefficient from a product of at least 1/600 lies strictly between 0
    and 1. *)
Lemma exp_coef_in_unit (x c : R) :
  Np.exp (-1 / x) = Some c -> 1 <= 600 * x -> 0 < c < 1.
Proof.
  intros Hc Hx.
  assert (Hpos : 0 < x) by lra.
  rewrite exp_coef_normal in Hc by (rewrite Rabs_pos_eq; lra).
  injection Hc as <-. split; [apply exp_pos|].
  rewrite <- exp_0. apply exp_increasing.
  assert (0 < / x) by (apply Rinv_0_lt_compat, Hpos).
  unfold Rdiv. lra.
Qed.

(** The construction of the command line, with threshold -25 dB at
    48000 Hz and the default time constants, succeeds for every block size
    and volume. *)
Lemma main_init_succeeds (bs : Z) (vdb : R) :
  __init__ (-25) bs 48000 default_attack_time default_release_time vdb =
  Ok (mkGate (-25) bs 48000
        (Np.clip vdb (-60) 12)
        (exp10 (Np.clip vdb (-60) 12 / 20))
        (Rtrigo_def.exp (-1 / (IZR 48000 * default_attack_time)))
        (Rtrigo_def.exp (-1 / (IZR 48000 * default_release_time)))
        1
        (exp10 (-25 / 20))
        0.1).
Proof.
  unfold default_attack_time, default_release_time.
  apply init_succeeds.
  - rewrite Rabs_pos_eq by lra. unfold F64.max. lra.
  - rewrite Rabs_pos_eq by lra. lra.
  - rewrite Rabs_pos_eq by lra. lra.
  - lra.
Qed.

Section MainFacts.

Variable float : String.string -> option pyfloat.

Lemma parse_profile_cases (argv : list String.string) :
  (parse_profile argv = inr (SysExit 1) /\ ~ profile_accepted argv) \/
  (exists name p,
     parse_profile argv = inl name /\ profile_accepted argv /\
     getitem PRESETS name = Some p /\
     ((length argv <= 1)%nat -> preset_block_size p = 128%Z)).
Proof.
  unfold parse_profile, profile_accepted.
  destruct (Nat.ltb_spec 1 (length argv)) as [Hlt|Hle].
  - cbv zeta.
    destruct (contains PRESETS (lower (nth 1 argv String.EmptyString)))
      eqn:Hc.
    + right. apply contains_getitem in Hc. destruct Hc as [p Hp].
      eexists. exists p. repeat split; auto. intros. lia.
    + left. split; [reflexivity|]. intros [H|H]; [lia|discriminate].
  - right. exists "balanced"%string. eexists.
    split; [reflexivity|]. split; [left; exact Hle|].
    split; [reflexivity|]. intros _. reflexivity.
Qed.

Lemma parse_volume_cases (argv : list String.string) :
  (parse_volume float argv = inr (SysExit 1) /\
   ~ volume_is_nan float argv /\ forall p, ~ volume_accepted float argv p) \/
  (parse_volume float argv = inl NaN /\ volume_is_nan float argv /\
   forall p, ~ volume_accepted float argv p) \/
  (exists p, parse_volume float argv = inl (Finite p) /\
             volume_accepted float argv p /\ 1 <= p <= 200 /\
             ~ volume_is_nan float argv).
Proof.
  unfold parse_volume, volume_accepted, volume_is_nan.
  destruct (Nat.ltb_spec 2 (length argv)) as [Hlt|Hle].
  - destruct (float (nth 2 argv String.EmptyString)) as [[x| | |]|] eqn:Hf.
    + cbn [float_lt float_gt].
      destruct (Rlt_dec x 1) as [H1|H1]; cbn [orb].
      * left. split; [reflexivity|]. split; [intros [_ H]; discriminate|].
        intros p [[H _]|(_ & H & Hr)]; [lia|]. injection H as <-. lra.
      * destruct (Rgt_dec x 200) as [H2|H2].
        -- left. split; [reflexivity|]. split; [intros [_ H]; discriminate|].
           intros p [[H _]|(_ & H & Hr)]; [lia|]. injection H as <-. lra.
        -- right. right. exists x. split; [reflexivity|].
           split; [right; repeat split; auto; lra|].
           split; [lra|]. intros [_ H]. discriminate.
    + left. split; [reflexivity|]. split; [intros [_ H]; discriminate|].
      intros p [[H _]|(_ & H & _)]; [lia|discriminate].
    + left. split; [reflexivity|]. split; [intros [_ H]; discriminate|].
      intros p [[H _]|(_ & H & _)]; [lia|discriminate].
    + right. left. split; [reflexivity|]. split; [auto|].
      intros p [[H _]|(_ & H & _)]; [lia|discriminate].
    + left. split; [reflexivity|]. split; [intros [_ H]; discriminate|].
      intros p [[H _]|(_ & H & _)]; [lia|discriminate].
  - right. right. exists 100. split; [reflexivity|].
    split; [left; auto|]. split; [lra|]. intros [H _]. lia.
Qed.

End MainFacts.

Section MainTheorems.

Variable float : String.string -> option pyfloat.

(** The four ways the script can go. *)
Lemma main_cases (argv : list String.string) :
  (main float argv = SysExit 1 /\ ~ profile_accepted argv) \/
  (main float argv = SysExit 1 /\ profile_accepted argv /\
   ~ volume_is_nan float argv /\ forall p, ~ volume_accepted float argv p) \/
  (main float argv = NonFinite /\ profile_accepted argv /\
   volume_is_nan float argv /\ forall p, ~ volume_accepted float argv p) \/
  (exists name p pct g,
     main float argv = Started g /\
     __init__ (preset_threshold p) (preset_block_size p) 48000
       default_attack_time default_release_time
       (20 * (ln (pct / 100) / ln 10)) = Ok g /\
     profile_accepted argv /\ volume_accepted float argv pct /\
     ~ volume_is_nan float argv /\
     1 <= pct <= 200 /\
     getitem PRESETS name = Some p /\
     ((length argv <= 1)%nat -> preset_block_size p = 128%Z)).
Proof.
  unfold main.
  destruct (parse_profile_cases argv)
    as [[Hp Hna]|(name & p & Hp & Hacc & Hget & Hdef)]; rewrite Hp.
  { left. auto. }
  right.
  destruct (parse_volume_cases float argv)
    as [(Hv & Hnn & Hnv)|[(Hv & Hnan & Hnv)|(pct & Hv & Hva & Hr & Hnn)]];
    rewrite Hv.
  - left. auto.
  - right. left. rewrite Hget. cbn [percent_to_db]. auto.
  - right. right. rewrite Hget.
    destruct (percent_to_db_accepts pct Hr) as (db & Hdb & Hm & _ & _).
    rewrite Hdb.
    pose proof (main_volume_db_accepts pct Hr) as Hm'.
    rewrite Hm in Hm'. injection Hm' as Hdbv. subst db.
    assert (Hinit : exists g,
              __init__ (preset_threshold p) (preset_block_size p) 48000
                default_attack_time default_release_time
                (20 * (ln (pct / 100) / ln 10)) = Ok g).
    { destruct (PRESETS_entries name p Hget) as [Hthr _]. rewrite Hthr.
      eexists. apply main_init_succeeds. }
    destruct Hinit as [g Hg]. rewrite Hg.
    exists name, p, pct, g. repeat split; auto; lra.
Qed.

(** The script never fails with an exception: it exits with code 1, or
    builds a gate and starts it, or (on a nan percentage) starts with a
    volume that is not a number.  It exits exactly when the profile is not
    a preset's name or the percentage is not a number between 1 and 200;
    it starts a gate exactly when both arguments are accepted. *)
Theorem main_outcomes (argv : list String.string) :
  (main float argv = SysExit 1 \/ main float argv = NonFinite \/
   exists g, main float argv = Started g) /\
  (main float argv = SysExit 1 <->
   (~ profile_accepted argv \/
    (~ volume_is_nan float argv /\
     forall p, ~ volume_accepted float argv p))) /\
  ((exists g, main float argv = Started g) <->
   (profile_accepted argv /\ exists p, volume_accepted float argv p)).
Proof.
  destruct (main_cases argv)
    as [[Hm Hn]|[(Hm & Ha & Hnn & Hnv)|[(Hm & Ha & Hnan & Hnv)|
        (name & p & pct & g & Hm & _ & Ha & Hva & Hnn & _)]]];
    rewrite Hm.
  - split; [auto|]. split.
    + split; auto.
    + split; [intros [g Hg]; discriminate|tauto].
  - split; [auto|]. split.
    + split; auto.
    + split; [intros [g Hg]; discriminate|].
      intros [_ [q Hq]]. exfalso. exact (Hnv q Hq).
  - split; [auto|]. split.
    + split; [discriminate|]. intros [H|[H _]]; contradiction.
    + split; [intros [g Hg]; discriminate|].
      intros [_ [q Hq]]. exfalso. exact (Hnv q Hq).
  - split; [right; right; eauto|]. split.
    + split; [discriminate|].
      intros [H|[_ H]]; [contradiction|]. exfalso. exact (H pct Hva).
    + split; eauto.
Qed.

(** The fields of the gate the script starts. *)
Lemma main_started_fields (argv : list String.string) (g : AudioNoiseGate) :
  main float argv = Started g ->
  threshold g = -25 /\
  sample_rate g = 48000%Z /\
  In (block_size g) [32; 64; 128; 256]%Z /\
  ((length argv <= 1)%nat -> block_size g = 128%Z) /\
  current_gain g = 1 /\
  0 < attack_coef g < 1 /\
  0 < release_coef g < 1 /\
  gate_ok g /\
  (exists l, latency_ms g = Ok l /\ 0 < l < 6) /\
  (exists pct,
     volume_accepted float argv pct /\
     volume g = pct / 100 /\
     volume_db g = 20 * (ln (pct / 100) / ln 10)).
Proof.
  intros Hm.
  destruct (main_cases argv)
    as [[Hm' _]|[(Hm' & _)|[(Hm' & _)|
        (name & p & pct & g1 & Hm' & Hinit & _ & Hva & _ & Hr & Hget & Hdef)]]];
    rewrite Hm in Hm'; try discriminate.
  injection Hm' as <-.
  destruct (PRESETS_entries name p Hget) as [Hthr Hbs].
  assert (Hrange25 : -6000 <= preset_threshold p) by (rewrite Hthr; lra).
  pose proof (proj2 (init_gate_ok _ _ _ _ _ _ _ Hinit Hrange25)) as Hok.
  pose proof (init_fields _ _ _ _ _ _ _ Hinit)
    as (Hvdb & Hvol & Hac & Hrc & Hcur & _ & _ & Hb & Hs & Hthreshold & _).
  destruct (percent_to_db_accepts pct Hr) as (db & _ & Hm1 & Hrange & Hpow).
  pose proof (main_volume_db_accepts pct Hr) as Hm2.
  rewrite Hm1 in Hm2. injection Hm2 as Hdbv. subst db.
  split; [congruence|]. split; [exact Hs|].
  split; [rewrite Hb; exact Hbs|].
  split; [intros Hlen; rewrite Hb; auto|].
  split; [exact Hcur|].
  split; [apply (exp_coef_in_unit _ _ Hac);
          unfold default_attack_time; lra|].
  split; [apply (exp_coef_in_unit _ _ Hrc);
          unfold default_release_time; lra|].
  split; [exact Hok|].
  split.
  - exists (IZR (block_size g) / IZR 48000 * 1000). split.
    + unfold latency_ms, Py.truediv. rewrite Hs.
      destruct (Req_dec_T (IZR 48000) 0); [lra|reflexivity].
    + rewrite Hb. cbn [In] in Hbs.
      destruct Hbs as [E|[E|[E|[E|[]]]]]; rewrite <- E; lra.
  - exists pct. split; [exact Hva|]. split.
    + rewrite Hvol, Hvdb. exact Hpow.
    + rewrite Hvdb. apply clip_inside, Hrange.
Qed.

(** The gate the script starts: one of the four block sizes (128 without
    arguments), threshold -25 dB, 48000 Hz, gain 1.0, both smoothing
    coefficients strictly between 0 and 1, a positive latency below 6 ms,
    and a linear volume that is the accepted percentage over 100: the
    clamp of the constructor never acts on a volume from the command
    line. *)
Theorem main_started_gate (argv : list String.string) (g : AudioNoiseGate) :
  main float argv = Started g ->
  threshold g = -25 /\
  sample_rate g = 48000%Z /\
  In (block_size g) [32; 64; 128; 256]%Z /\
  ((length argv <= 1)%nat -> block_size g = 128%Z) /\
  current_gain g = 1 /\
  0 < attack_coef g < 1 /\
  0 < release_coef g < 1 /\
  gate_ok g /\
  (exists l, latency_ms g = Ok l /\ 0 < l < 6) /\
  (exists pct,
     volume_accepted float argv pct /\
     volume g = pct / 100 /\
     volume_db g = 20 * (ln (pct / 100) / ln 10)).
Proof. exact (main_started_fields argv g). Qed.

Lemma main_started_intro (argv : list String.string) (pct : R) :
  profile_accepted argv ->
  volume_accepted float argv pct ->
  exists g, main float argv = Started g.
Proof.
  intros Ha Hv.
  destruct (main_cases argv)
    as [[_ Hn]|[(_ & _ & _ & Hnv)|[(_ & _ & _ & Hnv)|
        (name & p & q & g & Hm & _)]]].
  - contradiction.
  - exfalso. exact (Hnv pct Hv).
  - exfalso. exact (Hnv pct Hv).
  - eauto.
Qed.

(** The range check lets nan through: the script builds its gate on a
    volume that is not a number exactly when the profile is accepted and
    the percentage given parses to nan, since both comparisons of the check
    are false for it. *)
Theorem main_nan_percentage (argv : list String.string) :
  main float argv = NonFinite <->
  (profile_accepted argv /\ volume_is_nan float argv).
Proof.
  destruct (main_cases argv)
    as [[Hm Hn]|[(Hm & Ha & Hnn & Hnv)|[(Hm & Ha & Hnan & Hnv)|
        (name & p & pct & g & Hm & _ & Ha & Hva & Hnn & _)]]];
    rewrite Hm; (split; [try discriminate; auto | tauto]).
Qed.

(** The profile is matched without regard to case: two first arguments
    with the same lower-case form give the same run. *)
Theorem main_profile_case_insensitive
    (script s1 s2 : String.string) (rest : list String.string) :
  lower s1 = lower s2 ->
  main float (script :: s1 :: rest) = main float (script :: s2 :: rest).
Proof.
  intros H. unfold main, parse_profile, parse_volume.
  cbn [length nth]. rewrite H. reflexivity.
Qed.

(** Nothing after the second argument is read. *)
Theorem main_ignores_extra_arguments
    (script a1 a2 : String.string) (rest : list String.string) :
  main float (script :: a1 :: a2 :: rest) = main float [script; a1; a2].
Proof.
  unfold main, parse_profile, parse_volume. cbn [length nth].
  replace (1 <? S (S (S (length rest))))%nat with true
    by (symmetry; apply Nat.ltb_lt; lia).
  replace (2 <? S (S (S (length rest))))%nat with true
    by (symmetry; apply Nat.ltb_lt; lia).
  reflexivity.
Qed.

(** Started from the command line, the gate runs: on every gate the
    session reaches, the callback completes on every non-empty block, the
    gain stays between 0.01 and 1, and no sample written exceeds twice the
    magnitude of the sample read (the percentage being at most 200). *)
Theorem main_gate_runs
    (argv : list String.string) (g0 g : AudioNoiseGate) (indata : list R) :
  main float argv = Started g0 ->
  reachable g0 g ->
  indata <> [] ->
  exists g' out,
    audio_callback g indata = Some (g', out) /\
    0.01 <= current_gain g' <= 1 /\
    Forall2 (fun x y => Rabs y <= 2 * Rabs x) indata out.
Proof.
  intros Hm Hreach Hne.
  destruct (main_started_fields argv g0 Hm)
    as (_ & _ & _ & _ & Hcur & Ha & Hrel & Hok & _ & (pct & Hva & Hvol & _)).
  assert (Hpct : 1 <= pct <= 200).
  { destruct Hva as [[_ ->]|(_ & _ & H)]; lra. }
  pose proof (reachable_gate_ok _ _ Hok Hreach) as Hokg.
  pose proof (audio_callback_total g indata Hokg Hne) as Hcb.
  cbv zeta in Hcb.
  assert (Hcur0 : 0.01 <= current_gain g0 <= 1) by (rewrite Hcur; lra).
  assert (Hb0 : gate_built g0) by (split; [left|]; apply Hok).
  assert (Ha' : 0 <= attack_coef g0 <= 1) by lra.
  assert (Hrel' : 0 <= release_coef g0 <= 1) by lra.
  pose proof (reachable_gain_range g0 _ Hb0 Ha' Hrel' Hcur0
                (reach_step g0 g _ indata _ Hreach Hcb)) as Hgain.
  destruct (reachable_frame _ _ Hreach) as (_ & _ & Hv & _).
  eexists. eexists. split; [exact Hcb|]. split; [exact Hgain|].
  apply Forall2_map_r. intros x.
  set (g' := smooth g _) in *.
  assert (Hv' : volume g' = pct / 100) by (unfold g'; cbn; congruence).
  rewrite Hv', !Rabs_mult.
  rewrite (Rabs_pos_eq (current_gain g')), (Rabs_pos_eq (pct / 100)) by lra.
  pose proof (Rabs_pos x) as Hx.
  set (c := current_gain g') in *. set (ax := Rabs x) in *.
  assert (ax * c <= ax) by nra.
  assert (0 <= ax * c) by nra.
  nra.
Qed.

End MainTheorems.

(** A run with profile [Minimum] and volume [50], for a [float] that reads
    the word [50]. *)
Lemma main_started_gate_witness :
  let float := fun s => if String.eqb s "50" then Some (Finite 50) else None in
  let argv := ["micmon.py"; "Minimum"; "50"]%string in
  exists g,
    main float argv = Started g /\
    threshold g = -25 /\
    sample_rate g = 48000%Z /\
    In (block_size g) [32; 64; 128; 256]%Z /\
    ((length argv <= 1)%nat -> block_size g = 128%Z) /\
    current_gain g = 1 /\
    0 < attack_coef g < 1 /\
    0 < release_coef g < 1 /\
    gate_ok g /\
    (exists l, latency_ms g = Ok l /\ 0 < l < 6) /\
    (exists pct,
       volume_accepted float argv pct /\
       volume g = pct / 100 /\
       volume_db g = 20 * (ln (pct / 100) / ln 10)).
Proof.
  intros float argv.
  assert (Ha : profile_accepted argv) by (right; reflexivity).
  assert (Hv : volume_accepted float argv 50).
  { right. split; [cbn; lia|]. split; [reflexivity|lra]. }
  destruct (main_started_intro float argv 50 Ha Hv) as [g Hg].
  exists g. split; [exact Hg|].
  exact (main_started_gate float argv g Hg).
Defined.

(** [STABLE] and [Stable] name the same preset. *)
Lemma main_profile_case_insensitive_witness :
  let float := fun _ : String.string => @None pyfloat in
  main float ["micmon.py"; "STABLE"]%string
  = main float ["micmon.py"; "Stable"]%string.
Proof.
  intros float.
  apply (main_profile_case_insensitive float). reflexivity.
Defined.

(** The same run, fed one block of silence. *)
Lemma main_gate_runs_witness :
  let float := fun s => if String.eqb s "50" then Some (Finite 50) else None in
  let argv := ["micmon.py"; "Minimum"; "50"]%string in
  exists g0,
    main float argv = Started g0 /\
    exists g' out,
      audio_callback g0 [0; 0] = Some (g', out) /\
      0.01 <= current_gain g' <= 1 /\
      Forall2 (fun x y => Rabs y <= 2 * Rabs x) [0; 0] out.
Proof.
  intros float argv.
  assert (Ha : profile_accepted argv) by (right; reflexivity).
  assert (Hv : volume_accepted float argv 50).
  { right. split; [cbn; lia|]. split; [reflexivity|lra]. }
  destruct (main_started_intro float argv 50 Ha Hv) as [g0 Hg].
  exists g0. split; [exact Hg|].
  apply (main_gate_runs float argv g0 g0 [0; 0] Hg (reach_init g0)).
  discriminate.
Defined.
